(** * The archive's item repository (app.py): model and verified properties

    The Flask handlers of [app.py] (upload, list_items, get_item, download,
    delete_item) are embedded as functions over an explicit world made of the
    [items] table and the [uploads] directory.  Text is modelled over the
    ASCII repertoire, one [ascii] per code point; the clock and the outcome of
    file-system calls are inputs of the handlers. *)

From Stdlib Require Import Ascii String NArith.
From stdpp Require Import gmap strings list sorting fin_maps.

Local Open Scope list_scope.

(** ** Text *)

Module Text.

(** A Python [str], as its sequence of characters. *)
Definition str : Type := list ascii.

(** A literal of the source. *)
Definition lit (s : string) : str := list_ascii_of_string s.

Definition code (c : ascii) : N := N_of_ascii c.

(** [str.isspace] on one character: TAB, LF, VT, FF, CR, the separators
    FS, GS, RS, US and the space. *)
Definition isspace (c : ascii) : bool :=
  ((9 <=? code c) && (code c <=? 13) || (28 <=? code c) && (code c <=? 32))%N.

Definition isupper (c : ascii) : bool := ((65 <=? code c) && (code c <=? 90))%N.
Definition islower (c : ascii) : bool := ((97 <=? code c) && (code c <=? 122))%N.
Definition isdigit (c : ascii) : bool := ((48 <=? code c) && (code c <=? 57))%N.
Definition isalnum (c : ascii) : bool := isupper c || islower c || isdigit c.

Definition lower_char (c : ascii) : ascii :=
  if isupper c then ascii_of_N (code c + 32) else c.

(** [s.lower()] *)
Definition lower (s : str) : str := map lower_char s.

Fixpoint dropwhile (p : ascii -> bool) (s : str) : str :=
  match s with
  | [] => []
  | c :: s' => if p c then dropwhile p s' else s
  end.

Fixpoint takewhile (p : ascii -> bool) (s : str) : str :=
  match s with
  | [] => []
  | c :: s' => if p c then c :: takewhile p s' else []
  end.

Definition lstrip_by (p : ascii -> bool) (s : str) : str := dropwhile p s.
Definition rstrip_by (p : ascii -> bool) (s : str) : str :=
  rev (dropwhile p (rev s)).

(** [s.strip(chars)], the characters to remove given as a predicate. *)
Definition strip_by (p : ascii -> bool) (s : str) : str :=
  rstrip_by p (lstrip_by p s).

(** [s.strip()] *)
Definition strip (s : str) : str := strip_by isspace s.

(** [c in s] for a one-character [c]. *)
Definition contains_char (c : ascii) (s : str) : bool :=
  existsb (Ascii.eqb c) s.

(** [s.rsplit(sep, 1)] for a one-character separator: the text is cut at
    the last [sep], or returned whole when there is none. *)
Definition rsplit1 (sep : ascii) (s : str) : list str :=
  let r := rev s in
  let notsep c := negb (Ascii.eqb sep c) in
  match dropwhile notsep r with
  | [] => [s]
  | _ :: head_rev => [rev head_rev; rev (takewhile notsep r)]
  end.

(** [sep.join(parts)] *)
Fixpoint join (sep : str) (parts : list str) : str :=
  match parts with
  | [] => []
  | [p] => p
  | p :: rest => p ++ sep ++ join sep rest
  end.

(** [s.split()]: the maximal runs of non-space characters.  [cur] is the
    run being read, reversed. *)
Fixpoint split_go (cur : str) (s : str) : list str :=
  match s with
  | [] => match cur with [] => [] | _ => [rev cur] end
  | c :: s' =>
      if isspace c
      then match cur with [] => split_go [] s' | _ => rev cur :: split_go [] s' end
      else split_go (c :: cur) s'
  end.
Definition split (s : str) : list str := split_go [] s.

(** [s.replace(a, b)] for one-character [a] and [b]. *)
Definition replace_char (a b : ascii) (s : str) : str :=
  map (fun c => if Ascii.eqb a c then b else c) s.

(** Comparison of two texts as SQLite's BINARY collation does it: byte by
    byte, a proper prefix first. *)
Definition str_le (a b : str) : Prop :=
  String.le (string_of_list_ascii a) (string_of_list_ascii b).

#[global] Instance str_le_dec : RelDecision str_le.
Proof. intros a b. unfold str_le. apply _. Defined.

#[global] Instance str_le_total : Total str_le.
Proof. intros a b. unfold str_le. apply total, _. Qed.

#[global] Instance str_le_trans : Transitive str_le.
Proof. intros a b c. unfold str_le. apply transitivity. Qed.

(** Zero-padded decimal of [n] on exactly [width] digits. *)
Definition digit (d : N) : ascii := ascii_of_N (48 + d).

Fixpoint zpad (width : nat) (n : N) : str :=
  match width with
  | 0 => []
  | S w => zpad w (n / 10)%N ++ [digit (n mod 10)%N]
  end.

End Text.
Import Text.

(** ** The clock *)

(** A reading of [datetime.utcnow()]. *)
Record datetime : Type := {
  year : N; month : N; day : N;
  hour : N; minute : N; second : N; microsecond : N
}.

(** The ranges of the fields of a [datetime], for the years that [%Y]
    prints on four digits (the length of a month is not needed here). *)
Definition valid_datetime (t : datetime) : bool :=
  ((1000 <=? year t) && (year t <=? 9999) && (1 <=? month t) && (month t <=? 12)
   && (1 <=? day t) && (day t <=? 31) && (hour t <=? 23) && (minute t <=? 59)
   && (second t <=? 59) && (microsecond t <=? 999999))%N.

(** [t.strftime("%Y%m%d%H%M%S%f")] *)
Definition strftime (t : datetime) : str :=
  zpad 4 (year t) ++ zpad 2 (month t) ++ zpad 2 (day t) ++ zpad 2 (hour t)
  ++ zpad 2 (minute t) ++ zpad 2 (second t) ++ zpad 6 (microsecond t).

(** [t.isoformat()]: the fraction is left out when it is zero. *)
Definition isoformat (t : datetime) : str :=
  zpad 4 (year t) ++ lit "-" ++ zpad 2 (month t) ++ lit "-" ++ zpad 2 (day t)
  ++ lit "T" ++ zpad 2 (hour t) ++ lit ":" ++ zpad 2 (minute t) ++ lit ":"
  ++ zpad 2 (second t)
  ++ (if (microsecond t =? 0)%N then [] else lit "." ++ zpad 6 (microsecond t)).

(** ** Utility *)

Definition ALLOWED_EXT : gset str :=
  list_to_set (lit <$> ["png"; "jpg"; "jpeg"; "gif"; "pdf"; "mp3"; "wav"; "mp4"; "txt"]%string).

(** [allowed_file]: the index [1] of the split exists once the text holds a
    dot, the other branch of the [match] is never taken. *)
Definition allowed_file (filename : str) : bool :=
  contains_char "."%char filename
  && match rsplit1 "."%char filename !! 1%nat with
     | Some ext => bool_decide (lower ext ∈ ALLOWED_EXT)
     | None => false
     end.

(** The characters outside [[^A-Za-z0-9_.-]], which [secure_filename]
    keeps. *)
Definition filename_keep (c : ascii) : bool :=
  isalnum c || Ascii.eqb c "_"%char || Ascii.eqb c "."%char || Ascii.eqb c "-"%char.

(** The characters removed by [strip("._")]. *)
Definition dot_or_underscore (c : ascii) : bool :=
  Ascii.eqb c "."%char || Ascii.eqb c "_"%char.

(** [werkzeug.utils.secure_filename] (Werkzeug 2.2, POSIX: the separator is
    the slash and there are no reserved device names).  Normalising to NFKD
    and encoding to ASCII with the rest ignored keeps, on this repertoire,
    the characters below 128. *)
Definition secure_filename (filename : str) : str :=
  let filename := List.filter (fun c => (code c <? 128)%N) filename in
  let filename := replace_char "/"%char " "%char filename in
  strip_by dot_or_underscore
    (List.filter filename_keep (join (lit "_") (split filename))).

(** [x or ''], the empty text for [None] and for the empty text. *)
Definition or_empty (x : option str) : str :=
  match x with
  | None => []
  | Some [] => []
  | Some s => s
  end.

(** SQLite's [text LIKE pattern] without an ESCAPE clause: [%] stands for
    any run of characters, [_] for any one character, and letters compare
    without regard to case. *)
Fixpoint like (pattern : str) : str -> bool :=
  match pattern with
  | [] => fun text => match text with [] => true | _ => false end
  | p :: pattern' =>
      if Ascii.eqb p "%"%char then
        fix any (text : str) : bool :=
          like pattern' text
          || match text with [] => false | _ :: text' => any text' end
      else if Ascii.eqb p "_"%char then
        fun text => match text with [] => false | _ :: text' => like pattern' text' end
      else
        fun text =>
          match text with
          | [] => false
          | c :: text' => Ascii.eqb (lower_char p) (lower_char c) && like pattern' text'
          end
  end.

(** ** The stored state *)

Module Row.
(** A row of the [items] table. *)
Record t : Type := {
  id : nat; filename : str; original_name : str; mime : str;
  title : str; description : str; tags : str; uploaded_at : str
}.
End Row.

Module FileStorage.
(** A file part of a multipart request. *)
Record t : Type := {
  filename : str; mimetype : option str; stream : list Byte.byte
}.
End FileStorage.

(** The [items] table in rowid order, the largest rowid ever assigned (what
    AUTOINCREMENT keeps in [sqlite_sequence]) and the [uploads] directory. *)
Record world : Type := {
  items : list Row.t;
  sqlite_sequence : nat;
  uploads : gmap str (list Byte.byte)
}.

Definition empty_world : world :=
  {| items := []; sqlite_sequence := 0; uploads := ∅ |}.

Definition with_items (f : list Row.t -> list Row.t) (w : world) : world :=
  {| items := f (items w); sqlite_sequence := sqlite_sequence w; uploads := uploads w |}.

Definition with_uploads
    (f : gmap str (list Byte.byte) -> gmap str (list Byte.byte)) (w : world) : world :=
  {| items := items w; sqlite_sequence := sqlite_sequence w; uploads := f (uploads w) |}.

(** ** Handlers as state transformers that log what other requests can see *)

(** A change of the stored state that becomes visible to other requests:
    a file written in full, a file left behind by a write that failed, a file
    removed, a committed INSERT and a committed DELETE. *)
Inductive effect : Type :=
| Saved (name : str)
| SaveAborted (name : str)
| Removed (name : str)
| Inserted (rowid : nat)
| Deleted (rowid : nat).

Inductive exn : Type :=
| HTTPException (code : nat)
| OSError.

(** The visible changes of a computation, each with the world it leaves. *)
Definition trace : Type := list (effect * world).

Definition M (A : Type) : Type := world -> (A + exn) * world * trace.

Definition ret {A} (a : A) : M A := fun w => (inl a, w, []).
Definition raise {A} (e : exn) : M A := fun w => (inr e, w, []).
Definition bind {A B} (m : M A) (k : A -> M B) : M B :=
  fun w =>
    match m w with
    | (inl a, w1, t1) => let '(r, w2, t2) := k a w1 in (r, w2, t1 ++ t2)
    | (inr e, w1, t1) => (inr e, w1, t1)
    end.
Definition emit (e : effect) (f : world -> world) : M unit :=
  fun w => (inl tt, f w, [(e, f w)]).

(** [try: m  except Exception: pass] *)
Definition try_pass (m : M unit) : M unit :=
  fun w => match m w with
           | (inr _, w1, t1) => (inl tt, w1, t1)
           | r => r
           end.

Notation "'let*' x := m 'in' k" := (bind m (fun x => k))
  (at level 10, x name, m at level 200, k at level 200).

(** *** The uploads directory *)

(** What the environment lets a write do: complete, fail when the file is
    opened, or fail after [written] bytes. *)
Inductive save_outcome : Type :=
| SaveOk
| SaveOpenFails
| SaveWriteFails (written : nat).

(** [f.save(os.path.join(UPLOAD_FOLDER, name))] *)
Definition save (io : save_outcome) (name : str) (data : list Byte.byte) : M unit :=
  match io with
  | SaveOk => emit (Saved name) (with_uploads <[name := data]>)
  | SaveOpenFails => raise OSError
  | SaveWriteFails n =>
      let* _ := emit (SaveAborted name) (with_uploads <[name := take n data]>) in
      raise OSError
  end.

(** [os.remove(os.path.join(UPLOAD_FOLDER, name))]: fails on a missing file
    (FileNotFoundError) and when the environment refuses ([permitted] is
    [false]). *)
Definition os_remove (permitted : bool) (name : str) : M unit :=
  fun w =>
    match uploads w !! name with
    | None => raise OSError w
    | Some _ =>
        if permitted then emit (Removed name) (with_uploads (delete name)) w
        else raise OSError w
    end.

(** What a response carries: one of the JSON documents of the handlers, a
    file sent as an attachment, or the error page of the framework. *)
Inductive body : Type :=
| JError (msg : str)
| JCreated (rowid : nat)
| JSuccess
| JItem (r : Row.t)
| JItems (rs : list Row.t)
| Attachment (download_name : str) (content : list Byte.byte)
| ErrorPage.

Record response : Type := { status : nat; payload : body }.

(** [send_from_directory(UPLOAD_FOLDER, name, as_attachment=True,
    download_name=...)]: the directory is flat, a name that is not a file of
    it is answered 404. *)
Definition send_from_directory (name download_name : str) : M response :=
  fun w =>
    match uploads w !! name with
    | None => raise (HTTPException 404) w
    | Some data => ret {| status := 200; payload := Attachment download_name data |} w
    end.

(** *** The items table *)

(** [SELECT ... FROM items WHERE id=?] then [fetchone()] *)
Definition select_by_id (item_id : nat) : M (option Row.t) :=
  fun w => ret (List.find (fun r => Row.id r =? item_id) (items w)) w.

(** ORDER BY uploaded_at DESC: the later text first.  The order SQLite gives
    to rows of equal [uploaded_at] is not fixed; the model sorts with a merge
    sort, and no statement below depends on how ties fall. *)
Definition newer_first (a b : Row.t) : Prop :=
  str_le (Row.uploaded_at b) (Row.uploaded_at a).

#[global] Instance newer_first_dec : RelDecision newer_first.
Proof. intros a b. unfold newer_first. apply _. Defined.

(** [SELECT * FROM items WHERE ... ORDER BY uploaded_at DESC] then
    [fetchall()] *)
Definition select_ordered (where_ : Row.t -> bool) : M (list Row.t) :=
  fun w => ret (merge_sort newer_first (List.filter where_ (items w))) w.

(** The rowid of an INSERT into an AUTOINCREMENT table: one more than the
    largest rowid the table ever held. *)
Definition next_rowid (w : world) : nat :=
  S (Nat.max (sqlite_sequence w) (foldr Nat.max 0 (Row.id <$> items w))).

(** [INSERT INTO items (...) VALUES (?,?,?,?,?,?,?)], [conn.commit()] and
    [cur.lastrowid]; the row is visible to other requests from the commit
    on, so the statements make one visible step. *)
Definition insert_item
    (filename original_name mime title description tags uploaded_at : str) : M nat :=
  fun w =>
    let rowid := next_rowid w in
    let row := {| Row.id := rowid; Row.filename := filename;
                  Row.original_name := original_name; Row.mime := mime;
                  Row.title := title; Row.description := description;
                  Row.tags := tags; Row.uploaded_at := uploaded_at |} in
    let w' := {| items := items w ++ [row]; sqlite_sequence := rowid;
                 uploads := uploads w |} in
    (inl rowid, w', [(Inserted rowid, w')]).

(** [DELETE FROM items WHERE id=?] and [conn.commit()] *)
Definition delete_by_id (item_id : nat) : M unit :=
  emit (Deleted item_id)
       (with_items (List.filter (fun r => negb (Row.id r =? item_id)))).

(** ** API routes *)

(** A parsed request: [request.files], [request.form] and [request.args]. *)
Record request : Type := {
  files : gmap string FileStorage.t;
  form : gmap string str;
  args : gmap string str
}.

(** [jsonify({...}), code] *)
Definition jsonify (code : nat) (b : body) : M response :=
  ret {| status := code; payload := b |}.

(** [sorted(ALLOWED_EXT)] joined with a comma and a space. *)
Definition allowed_list : str :=
  join (lit ", ") (merge_sort str_le (elements ALLOWED_EXT)).

(** [upload]: [now1] and [now2] are the two readings of the clock, [io] is
    what the write of the file will do. *)
Definition upload (now1 now2 : datetime) (io : save_outcome) (req : request) : M response :=
  match files req !! "file"%string with
  | None => jsonify 400 (JError (lit "No file part"))
  | Some f =>
      match FileStorage.filename f with
      | [] => jsonify 400 (JError (lit "No selected file"))
      | _ =>
          if negb (allowed_file (FileStorage.filename f)) then
            jsonify 400 (JError (lit "File type not allowed. Allowed: " ++ allowed_list))
          else
            let orig := secure_filename (FileStorage.filename f) in
            let timestamp := strftime now1 in
            let stored_name := timestamp ++ lit "_" ++ orig in
            let* _ := save io stored_name (FileStorage.stream f) in
            let title := strip (or_empty (form req !! "title"%string)) in
            let description := strip (or_empty (form req !! "description"%string)) in
            let tags := strip (or_empty (form req !! "tags"%string)) in
            let mime := or_empty (FileStorage.mimetype f) in
            let* item_id :=
              insert_item stored_name orig mime title description tags (isoformat now2) in
            jsonify 201 (JCreated item_id)
      end
  end.

(** The WHERE clause of the search, [like] being ["%" + q + "%"]. *)
Definition search_where (pattern : str) (r : Row.t) : bool :=
  like pattern (lower (Row.title r))
  || like pattern (lower (Row.description r))
  || like pattern (lower (Row.tags r)).

(** [list_items] *)
Definition list_items (req : request) : M response :=
  let q := lower (strip (or_empty (args req !! "q"%string))) in
  let* rows :=
    match q with
    | _ :: _ =>
        let pattern := lit "%" ++ q ++ lit "%" in
        select_ordered (search_where pattern)
    | [] => select_ordered (fun _ => true)
    end in
  jsonify 200 (JItems rows).

(** [get_item] *)
Definition get_item (item_id : nat) : M response :=
  let* row := select_by_id item_id in
  match row with
  | None => jsonify 404 (JError (lit "Not found"))
  | Some row => jsonify 200 (JItem row)
  end.

(** [download] *)
Definition download (item_id : nat) : M response :=
  let* row := select_by_id item_id in
  match row with
  | None => raise (HTTPException 404)
  | Some row =>
      let filename := Row.filename row in
      let original :=
        match Row.original_name row with
        | [] => filename
        | name => name
        end in
      send_from_directory filename original
  end.

(** [delete_item]: [permitted] is whether the environment lets the file be
    removed. *)
Definition delete_item (permitted : bool) (item_id : nat) : M response :=
  let* row := select_by_id item_id in
  match row with
  | None => jsonify 404 (JError (lit "Not found"))
  | Some row =>
      let filename := Row.filename row in
      let* _ := try_pass (os_remove permitted filename) in
      let* _ := delete_by_id item_id in
      jsonify 200 JSuccess
  end.

(** *** Serving requests *)

Inductive call : Type :=
| Upload (now1 now2 : datetime) (io : save_outcome) (req : request)
| ListItems (req : request)
| GetItem (item_id : nat)
| Download (item_id : nat)
| DeleteItem (permitted : bool) (item_id : nat).

Definition handler (c : call) : M response :=
  match c with
  | Upload now1 now2 io req => upload now1 now2 io req
  | ListItems req => list_items req
  | GetItem item_id => get_item item_id
  | Download item_id => download item_id
  | DeleteItem permitted item_id => delete_item permitted item_id
  end.

(** What the framework answers: the handler's response, the page of an
    aborted request, or 500 for any other exception. *)
Definition serve (c : call) (w : world) : response * world * trace :=
  match handler c w with
  | (inl r, w', t) => (r, w', t)
  | (inr (HTTPException code), w', t) => ({| status := code; payload := ErrorPage |}, w', t)
  | (inr OSError, w', t) => ({| status := 500; payload := ErrorPage |}, w', t)
  end.

Definition response_of (c : call) (w : world) : response := (serve c w).1.1.
Definition world_after (c : call) (w : world) : world := (serve c w).1.2.
Definition trace_of (c : call) (w : world) : trace := (serve c w).2.

(** The visible changes of a sequence of requests served one after another. *)
Fixpoint serve_all (cs : list call) (w : world) : trace :=
  match cs with
  | [] => []
  | c :: cs' => trace_of c w ++ serve_all cs' (world_after c w)
  end.

(** ** Notions used in the statements *)

Definition notdot (c : ascii) : bool := negb (Ascii.eqb "."%char c).

(** The extension test in words: the text after the last dot, in lower
    case, is one of the allowed extensions. *)
Definition has_allowed_extension (filename : str) : Prop :=
  exists stem ext,
    filename = stem ++ "."%char :: ext /\ ~ In "."%char ext /\ lower ext ∈ ALLOWED_EXT.

(** The name under which an accepted file is stored and the row recorded
    for it. *)
Definition stored_name_of (now1 : datetime) (f : FileStorage.t) : str :=
  strftime now1 ++ lit "_" ++ secure_filename (FileStorage.filename f).

Definition row_of (now1 now2 : datetime) (req : request) (f : FileStorage.t) (rowid : nat) : Row.t :=
  {| Row.id := rowid;
     Row.filename := stored_name_of now1 f;
     Row.original_name := secure_filename (FileStorage.filename f);
     Row.mime := or_empty (FileStorage.mimetype f);
     Row.title := strip (or_empty (form req !! "title"%string));
     Row.description := strip (or_empty (form req !! "description"%string));
     Row.tags := strip (or_empty (form req !! "tags"%string));
     Row.uploaded_at := isoformat now2 |}.

(** The request passes the three checks of [upload]. *)
Definition accepted (req : request) (f : FileStorage.t) : Prop :=
  files req !! "file"%string = Some f
  /\ FileStorage.filename f <> []
  /\ allowed_file (FileStorage.filename f) = true.

(** The request fails one of them. *)
Definition rejected (req : request) : Prop :=
  files req !! "file"%string = None
  \/ exists f, files req !! "file"%string = Some f
               /\ (FileStorage.filename f = []
                   \/ ~ has_allowed_extension (FileStorage.filename f)).

(** [stored] is [submitted] without its leading and trailing whitespace. *)
Definition stripped_of (submitted stored : str) : Prop :=
  exists l r,
    submitted = l ++ stored ++ r
    /\ forallb isspace l = true /\ forallb isspace r = true
    /\ (forall c, head stored = Some c -> isspace c = false)
    /\ (forall c, last stored = Some c -> isspace c = false).

(** What is stored for an optional form field: the submitted text, or the
    empty text when the field is absent, without its leading and trailing
    whitespace. *)
Definition stored_for (submitted : option str) (stored : str) : Prop :=
  stripped_of (default [] submitted) stored
  /\ (submitted = None -> stored = []).

(** The world without a row, and without a file. *)
Definition without_row (item_id : nat) (w : world) : world :=
  with_items (List.filter (fun r => negb (Row.id r =? item_id))) w.

Definition without_file (name : str) (w : world) : world :=
  with_uploads (delete name) w.

(** The world left by the [k]-th visible change of a trace. *)
Definition state_at (k : nat) (t : trace) (w : world) : world :=
  match t !! k with
  | Some (_, s) => s
  | None => w
  end.

(** The names of the files written in full so far, one more after a
    [Saved]. *)
Definition note (seen : list str) (e : effect) : list str :=
  match e with
  | Saved name => name :: seen
  | _ => seen
  end.

Definition seen_after (seen : list str) (t : trace) : list str :=
  fold_left note (fst <$> t) seen.

(** Every row of every world of the trace names a file whose write had
    completed by then, [seen] being the files written before the trace. *)
Fixpoint rows_saved (seen : list str) (t : trace) : Prop :=
  match t with
  | [] => True
  | (e, s) :: t' =>
      (forall row, In row (items s) -> In (Row.filename row) (note seen e))
      /\ rows_saved (note seen e) t'
  end.

Definition rows_known (seen : list str) (w : world) : Prop :=
  forall row, In row (items w) -> In (Row.filename row) seen.

#[global] Instance newer_first_total : Total newer_first.
Proof.
  intros a b. unfold newer_first.
  destruct (total str_le (Row.uploaded_at b) (Row.uploaded_at a)); auto.
Qed.

#[global] Instance newer_first_trans : Transitive newer_first.
Proof.
  intros a b c Hab Hbc. unfold newer_first in *. now transitivity (Row.uploaded_at b).
Qed.

(** [t] starts with [q], letters compared without regard to case. *)
Fixpoint starts_with_ci (q t : str) : bool :=
  match q, t with
  | [], _ => true
  | _ :: _, [] => false
  | c :: q', d :: t' => Ascii.eqb (lower_char c) (lower_char d) && starts_with_ci q' t'
  end.

(** [t] contains [q] as a substring, letters compared without regard to
    case. *)
Fixpoint contains_ci (q t : str) : bool :=
  starts_with_ci q t
  || match t with
     | [] => false
     | _ :: t' => contains_ci q t'
     end.

(** The row has [q] in its title, its description or its tags. *)
Definition row_matches (q : str) (r : Row.t) : bool :=
  contains_ci q (Row.title r)
  || contains_ci q (Row.description r)
  || contains_ci q (Row.tags r).

Definition is_wildcard (c : ascii) : bool :=
  Ascii.eqb c "%"%char || Ascii.eqb c "_"%char.

Definition no_wildcard (q : str) : bool := forallb (fun c => negb (is_wildcard c)) q.

(** ** Sample requests and worlds *)

Definition file_part (name : string) (content : list Byte.byte) : FileStorage.t :=
  {| FileStorage.filename := lit name;
     FileStorage.mimetype := Some (lit "text/plain");
     FileStorage.stream := content |}.

Definition upload_request (name : string) (content : list Byte.byte) (title : string) : request :=
  {| files := {[ "file"%string := file_part name content ]};
     form := {[ "title"%string := lit title ]};
     args := ∅ |}.

Definition query_request (q : string) : request :=
  {| files := ∅; form := ∅; args := {[ "q"%string := lit q ]} |}.

Definition noon (us : N) : datetime :=
  {| year := 2024; month := 3; day := 9; hour := 12; minute := 0; second := 0;
     microsecond := us |}.

Definition one_row : world :=
  world_after (Upload (noon 1) (noon 2) SaveOk
                 (upload_request "scan1.jpg" [Byte.x01] "Palm leaf 1"))
    empty_world.

Definition two_rows : world :=
  world_after (Upload (noon 7) (noon 8) SaveOk
                 (upload_request "b.txt" [Byte.x02] "Folk song"))
    (world_after (Upload (noon 1) (noon 2) SaveOk
                    (upload_request "scan1.jpg" [Byte.x01] "Palm leaf 1"))
       empty_world).

Definition first_row : Row.t :=
  {| Row.id := 1; Row.filename := lit "20240309120000000001_scan1.jpg";
     Row.original_name := lit "scan1.jpg"; Row.mime := lit "text/plain";
     Row.title := lit "Palm leaf 1"; Row.description := []; Row.tags := [];
     Row.uploaded_at := lit "2024-03-09T12:00:00.000002" |}.

(** ** Notions used in the further properties *)

(** The world after a sequence of requests served one after another. *)
Fixpoint world_after_all (cs : list call) (w : world) : world :=
  match cs with
  | [] => w
  | c :: cs' => world_after_all cs' (world_after c w)
  end.

(** Every rowid of the table is positive and at most [sqlite_sequence], and
    no two rows have the same. *)
Definition rowids_ok (w : world) : Prop :=
  NoDup (Row.id <$> items w)
  /\ forall r, In r (items w) -> 1 <= Row.id r <= sqlite_sequence w.

(** The shape of a row that [upload] records: a non-empty original name of
    letters, digits, dots, dashes and underscores, a stored name made of
    twenty digits, an underscore and the original name, and a title, a
    description and tags without whitespace around them. *)
Definition row_shape (r : Row.t) : Prop :=
  Row.original_name r <> []
  /\ forallb filename_keep (Row.original_name r) = true
  /\ (exists ts, length ts = 20 /\ forallb isdigit ts = true
                 /\ Row.filename r = ts ++ lit "_" ++ Row.original_name r)
  /\ strip (Row.title r) = Row.title r
  /\ strip (Row.description r) = Row.description r
  /\ strip (Row.tags r) = Row.tags r.

(** Every row has its file in the directory. *)
Definition rows_have_files (w : world) : Prop :=
  forall r, In r (items w) -> is_Some (uploads w !! Row.filename r).

(** The first comparison, or the second when the first finds no
    difference. *)
Definition then_compare (c c' : comparison) : comparison :=
  match c with
  | Eq => c'
  | _ => c
  end.

(** The order of two clock readings: the years, then the months, and so on
    down to the microseconds, as Python compares two [datetime]s. *)
Definition datetime_compare (t t' : datetime) : comparison :=
  then_compare (year t ?= year t')%N
    (then_compare (month t ?= month t')%N
       (then_compare (day t ?= day t')%N
          (then_compare (hour t ?= hour t')%N
             (then_compare (minute t ?= minute t')%N
                (then_compare (second t ?= second t')%N
                   (microsecond t ?= microsecond t')%N))))).

(** The comparison behind [str_le]. *)
Definition str_compare (a b : str) : comparison :=
  String.compare (string_of_list_ascii a) (string_of_list_ascii b).

(** ** The script of the page *)

(** [s.replaceAll(a, b)] for a one-character [a]. *)
Definition replaceAll (a : ascii) (b : str) (s : str) : str :=
  flat_map (fun c => if Ascii.eqb c a then b else [c]) s.

(** [escapeHtml] of the page: [(s||'')] with its ampersands, then its
    [<], then its [>] replaced. *)
Definition escapeHtml (s : option str) : str :=
  replaceAll ">"%char (lit "&gt;")
    (replaceAll "<"%char (lit "&lt;")
       (replaceAll "&"%char (lit "&amp;") (or_empty s))).

(** [a || b] on two texts: the first unless it is empty. *)
Definition js_or (a b : str) : str :=
  match a with
  | [] => b
  | _ => a
  end.

(** The title that [renderItems] shows for an item:
    [escapeHtml(it.title || it.original_name || 'Untitled')]. *)
Definition shown_title (r : Row.t) : str :=
  escapeHtml (Some (js_or (js_or (Row.title r) (Row.original_name r)) (lit "Untitled"))).

(** What one character becomes in an escaped text. *)
Definition escape_char (c : ascii) : str :=
  if Ascii.eqb c "&"%char then lit "&amp;"
  else if Ascii.eqb c "<"%char then lit "&lt;"
  else if Ascii.eqb c ">"%char then lit "&gt;"
  else [c].

(** * Verified properties *)

(** ** The model on sample inputs *)

Example strip_example : strip (lit "  Palm leaf 1 ") = lit "Palm leaf 1".
Proof. reflexivity. Qed.
Example rsplit_example : rsplit1 "."%char (lit "a.tar.gz") = [lit "a.tar"; lit "gz"].
Proof. reflexivity. Qed.
Example split_example : join (lit "_") (split (lit " my  scan 1.jpg ")) = lit "my_scan_1.jpg".
Proof. reflexivity. Qed.
Example zpad_example : zpad 6 4021%N = lit "004021".
Proof. reflexivity. Qed.

Example allowed_png : allowed_file (lit "Scan.PNG") = true.
Proof. vm_compute. reflexivity. Qed.
Example allowed_exe : allowed_file (lit "malware.exe") = false.
Proof. vm_compute. reflexivity. Qed.
Example allowed_nodot : allowed_file (lit "txt") = false.
Proof. vm_compute. reflexivity. Qed.
Example secure_example :
  secure_filename (lit "../../etc/my passwd.txt") = lit "etc_my_passwd.txt".
Proof. vm_compute. reflexivity. Qed.
Example like_example : like (lit "%a_c%") (lit "xxABCyy") = true.
Proof. vm_compute. reflexivity. Qed.
Example strftime_example :
  strftime {| year := 2024; month := 3; day := 9; hour := 7; minute := 5;
              second := 0; microsecond := 123 |}%N = lit "20240309070500000123".
Proof. vm_compute. reflexivity. Qed.
Example isoformat_example :
  isoformat {| year := 2024; month := 3; day := 9; hour := 7; minute := 5;
               second := 0; microsecond := 123 |}%N = lit "2024-03-09T07:05:00.000123".
Proof. vm_compute. reflexivity. Qed.

Example allowed_list_value :
  allowed_list = lit "gif, jpeg, jpg, mp3, mp4, pdf, png, txt, wav".
Proof. vm_compute. reflexivity. Qed.

Example scenario_upload :
  response_of (Upload (noon 1) (noon 2) SaveOk
                 (upload_request "scan1.jpg" [Byte.x01; Byte.x02] "Palm leaf 1"))
              empty_world
  = {| status := 201; payload := JCreated 1 |}.
Proof. vm_compute. reflexivity. Qed.

(** ** Facts about text *)

Section TextFacts.

Variable p : ascii -> bool.

Lemma takewhile_dropwhile (s : str) : takewhile p s ++ dropwhile p s = s.
Proof.
  induction s as [|c s IH]; simpl; [reflexivity|].
  destruct (p c); simpl; [now rewrite IH | reflexivity].
Qed.

Lemma takewhile_all (s : str) : forallb p (takewhile p s) = true.
Proof.
  induction s as [|c s IH]; simpl; [reflexivity|].
  destruct (p c) eqn:E; simpl; [now rewrite E | reflexivity].
Qed.

Lemma dropwhile_head (s : str) c s' :
  dropwhile p s = c :: s' -> p c = false.
Proof.
  induction s as [|d s IH]; simpl; [discriminate|].
  destruct (p d) eqn:E; [exact IH | intros [= <- _]; exact E].
Qed.

Lemma dropwhile_all (s : str) : forallb p s = true -> dropwhile p s = [].
Proof.
  induction s as [|c s IH]; simpl; [reflexivity|].
  destruct (p c); simpl; [exact IH | discriminate].
Qed.

Lemma In_dropwhile (s : str) c : In c s -> p c = false -> In c (dropwhile p s).
Proof.
  induction s as [|d s IH]; simpl; [tauto|].
  intros [-> | Hin] Hc.
  - rewrite Hc. now left.
  - destruct (p d); [now apply IH | now right].
Qed.

Lemma In_strip_by (s : str) c : In c s -> p c = false -> In c (strip_by p s).
Proof.
  intros Hin Hc. unfold strip_by, rstrip_by, lstrip_by.
  apply in_rev. rewrite rev_involutive.
  apply In_dropwhile; [|exact Hc].
  apply in_rev. rewrite rev_involutive. now apply In_dropwhile.
Qed.

Lemma last_rev (s : str) : last (rev s) = head s.
Proof. destruct s as [|c s]; simpl; [reflexivity | apply last_snoc]. Qed.

Lemma head_rev (s : str) : head (rev s) = last s.
Proof.
  induction s as [|c s _] using rev_ind; [reflexivity|].
  now rewrite rev_app_distr, last_snoc.
Qed.

Lemma last_dropwhile (s : str) :
  dropwhile p s <> [] -> last (dropwhile p s) = last s.
Proof.
  intros Hne. rewrite <- (takewhile_dropwhile s) at 2.
  rewrite last_app. destruct (last (dropwhile p s)) eqn:E; [reflexivity|].
  apply last_None in E. contradiction.
Qed.

(** What [strip_by] removes and what it leaves: the text is the result
    between two runs of removed characters, and the result neither starts
    nor ends with such a character. *)
Lemma strip_by_spec (s : str) :
  exists l r,
    s = l ++ strip_by p s ++ r
    /\ forallb p l = true /\ forallb p r = true
    /\ (forall c, head (strip_by p s) = Some c -> p c = false)
    /\ (forall c, last (strip_by p s) = Some c -> p c = false).
Proof.
  unfold strip_by, rstrip_by, lstrip_by.
  set (m := dropwhile p s).
  exists (takewhile p s), (rev (takewhile p (rev m))).
  repeat split.
  - rewrite <- rev_app_distr, takewhile_dropwhile, rev_involutive.
    unfold m. now rewrite takewhile_dropwhile.
  - apply takewhile_all.
  - rewrite forallb_forall. intros c Hc. apply in_rev in Hc.
    pose proof (takewhile_all (rev m)) as H. rewrite forallb_forall in H. auto.
  - intros c Hc. rewrite head_rev in Hc.
    destruct (dropwhile p (rev m)) as [|e t] eqn:Edrop; [discriminate Hc|].
    rewrite <- Edrop, last_dropwhile, last_rev in Hc by (rewrite Edrop; discriminate).
    destruct m as [|d m'] eqn:Em; [discriminate Hc|].
    injection Hc as <-. eapply dropwhile_head, Em.
  - intros c Hc. rewrite last_rev in Hc.
    destruct (dropwhile p (rev m)) as [|e t] eqn:Edrop; [discriminate Hc|].
    injection Hc as <-. eapply dropwhile_head, Edrop.
Qed.

End TextFacts.

Section SplitFacts.

Variable p : ascii -> bool.

Lemma dropwhile_app_stop (l r : str) c :
  forallb p l = true -> p c = false -> dropwhile p (l ++ c :: r) = c :: r.
Proof.
  induction l as [|d l IH]; simpl; intros Hl Hc.
  - now rewrite Hc.
  - apply andb_prop in Hl as [-> Hl]. auto.
Qed.

Lemma takewhile_app_stop (l r : str) c :
  forallb p l = true -> p c = false -> takewhile p (l ++ c :: r) = l.
Proof.
  induction l as [|d l IH]; simpl; intros Hl Hc.
  - now rewrite Hc.
  - apply andb_prop in Hl as [-> Hl]. f_equal. auto.
Qed.

Lemma dropwhile_nil_all (s : str) : dropwhile p s = [] -> forallb p s = true.
Proof.
  induction s as [|c s IH]; simpl; [reflexivity|].
  destruct (p c); [exact IH | discriminate].
Qed.

End SplitFacts.

Lemma notdot_false c : notdot c = false <-> c = "."%char.
Proof.
  unfold notdot. rewrite negb_false_iff, Ascii.eqb_eq. split; congruence.
Qed.

Lemma forallb_notdot (s : str) : forallb notdot s = true <-> ~ In "."%char s.
Proof.
  rewrite forallb_forall. split.
  - intros H Hin. specialize (H _ Hin). now rewrite (proj2 (notdot_false _)) in H.
  - intros H c Hc. destruct (notdot c) eqn:E; [reflexivity|].
    apply notdot_false in E. subst. contradiction.
Qed.

(** Cutting at the last dot. *)
Lemma rsplit1_cut (stem ext : str) :
  ~ In "."%char ext -> rsplit1 "."%char (stem ++ "."%char :: ext) = [stem; ext].
Proof.
  intros Hext. unfold rsplit1. fold notdot.
  assert (Hrev : rev (stem ++ "."%char :: ext) = rev ext ++ "."%char :: rev stem).
  { rewrite rev_app_distr. simpl. now rewrite <- app_assoc. }
  rewrite Hrev.
  assert (Hall : forallb notdot (rev ext) = true).
  { apply forallb_notdot. intros Hin. apply Hext. now apply in_rev. }
  assert (Hdot : notdot "."%char = false) by reflexivity.
  rewrite dropwhile_app_stop, takewhile_app_stop by assumption.
  now rewrite !rev_involutive.
Qed.

Lemma contains_char_In c (s : str) : contains_char c s = true <-> In c s.
Proof.
  unfold contains_char. rewrite existsb_exists. split.
  - intros (d & Hd & E). apply Ascii.eqb_eq in E. now subst.
  - intros H. exists c. split; [assumption | apply Ascii.eqb_refl].
Qed.

Lemma cut_at_last_dot (s : str) :
  In "."%char s -> exists stem ext, s = stem ++ "."%char :: ext /\ ~ In "."%char ext.
Proof.
  intros Hin.
  pose proof (takewhile_dropwhile notdot (rev s)) as Hsplit.
  destruct (dropwhile notdot (rev s)) as [|c hr] eqn:Edrop.
  - apply dropwhile_nil_all in Edrop. apply forallb_notdot in Edrop.
    exfalso. apply Edrop. now apply in_rev in Hin.
  - pose proof (dropwhile_head _ _ _ _ Edrop) as Hc. apply notdot_false in Hc. subst c.
    exists (rev hr), (rev (takewhile notdot (rev s))). split.
    + rewrite <- (rev_involutive s), <- Hsplit at 1.
      rewrite rev_app_distr. simpl. now rewrite <- app_assoc.
    + intros Hd. apply in_rev in Hd.
      pose proof (takewhile_all notdot (rev s)) as Hall.
      apply forallb_notdot in Hall. contradiction.
Qed.

Lemma allowed_file_spec (filename : str) :
  allowed_file filename = true <-> has_allowed_extension filename.
Proof.
  unfold allowed_file, has_allowed_extension. split.
  - intros H. apply andb_prop in H as [Hdot Hext].
    apply contains_char_In, cut_at_last_dot in Hdot as (stem & ext & -> & Hno).
    rewrite rsplit1_cut in Hext by assumption. simpl in Hext.
    apply bool_decide_eq_true in Hext. eauto.
  - intros (stem & ext & -> & Hno & Hin).
    apply andb_true_intro. split.
    + apply contains_char_In, in_or_app. right. now left.
    + rewrite rsplit1_cut by assumption. simpl. now apply bool_decide_eq_true.
Qed.

Lemma lower_char_alnum c : isalnum (lower_char c) = true -> isalnum c = true.
Proof.
  destruct c as [[] [] [] [] [] [] [] []]; vm_compute; congruence.
Qed.

Lemma alnum_facts c :
  isalnum c = true ->
  (code c <? 128)%N = true /\ isspace c = false /\ c <> "/"%char
  /\ filename_keep c = true /\ dot_or_underscore c = false.
Proof.
  destruct c as [[] [] [] [] [] [] [] []]; vm_compute; intuition congruence.
Qed.

(** An allowed extension is not empty and starts with a letter. *)
Lemma allowed_ext_head (ext : str) :
  lower ext ∈ ALLOWED_EXT -> exists c ext', ext = c :: ext' /\ isalnum c = true.
Proof.
  unfold ALLOWED_EXT. rewrite elem_of_list_to_set, list_elem_of_In. simpl.
  destruct ext as [|c ext']; [intuition discriminate|].
  intros H. exists c, ext'. split; [reflexivity|].
  apply lower_char_alnum. simpl in H.
  repeat (destruct H as [H | H]; [injection H as <- _; reflexivity|]).
  contradiction.
Qed.

Lemma In_join_head (sep : str) (part : str) (rest : list str) c :
  In c part -> In c (join sep (part :: rest)).
Proof.
  intros H. destruct rest; simpl; [assumption|]. apply in_or_app. now left.
Qed.

Lemma In_join_tail (sep : str) (part : str) (rest : list str) c :
  In c (join sep rest) -> In c (join sep (part :: rest)).
Proof.
  intros H. destruct rest; simpl in *; [contradiction|].
  apply in_or_app. right. apply in_or_app. now right.
Qed.

(** [split] then [join] keeps every character that is not a space. *)
Lemma In_join_split_go (sep : str) c (s cur : str) :
  In c cur \/ (In c s /\ isspace c = false) -> In c (join sep (split_go cur s)).
Proof.
  revert cur. induction s as [|d s IH]; intros cur H.
  - destruct H as [H | [[] _]]. simpl.
    destruct cur as [|e cur]; [destruct H|]. now apply in_rev in H.
  - simpl. destruct (isspace d) eqn:Ed.
    + destruct cur as [|e cur].
      * apply IH. right. destruct H as [[] | [[-> | H] Hc]]; [congruence | auto].
      * destruct H as [H | [[-> | H] Hc]]; [| congruence |].
        -- apply In_join_head. now apply in_rev in H.
        -- apply In_join_tail, IH. auto.
    + apply IH. destruct H as [H | [[-> | H] Hc]];
        [left; now right | left; now left | right; auto].
Qed.

(** The sanitised name of an accepted file is never empty: the extension
    survives. *)
Lemma secure_filename_allowed (filename : str) :
  allowed_file filename = true -> secure_filename filename <> [].
Proof.
  intros H. apply allowed_file_spec in H as (stem & ext & -> & _ & Hext).
  apply allowed_ext_head in Hext as (c & ext' & -> & Hc).
  apply alnum_facts in Hc as (Hascii & Hspace & Hslash & Hkeep & Hstrip).
  assert (Hin : In c (secure_filename (stem ++ "."%char :: c :: ext'))).
  { unfold secure_filename. apply In_strip_by; [|assumption].
    apply filter_In. split; [|assumption].
    apply In_join_split_go. right. split; [|assumption].
    unfold replace_char. apply in_map_iff. exists c. split.
    - destruct (Ascii.eqb "/" c) eqn:E; [|reflexivity].
      apply Ascii.eqb_eq in E. congruence.
    - apply filter_In. split; [|assumption].
      apply in_or_app. right. right. now left. }
  intros E. rewrite E in Hin. destruct Hin.
Qed.

(** ** Facts about the table *)

Lemma rowid_lt_next (w : world) (r : Row.t) :
  In r (items w) -> Row.id r < next_rowid w.
Proof.
  unfold next_rowid. intros Hin.
  assert (H : Row.id r <= foldr Nat.max 0 (Row.id <$> items w)).
  { induction (items w) as [|x l IH]; [destruct Hin|].
    simpl. destruct Hin as [-> | Hin]; [apply Nat.le_max_l|].
    etransitivity; [exact (IH Hin) | apply Nat.le_max_r]. }
  apply Nat.lt_succ_r. etransitivity; [exact H | apply Nat.le_max_r].
Qed.

Lemma find_fresh_row (l : list Row.t) (row : Row.t) :
  (forall r, In r l -> Row.id r <> Row.id row) ->
  List.find (fun r => Row.id r =? Row.id row) (l ++ [row]) = Some row.
Proof.
  induction l as [|x l IH]; intros Hfresh; simpl.
  - now rewrite Nat.eqb_refl.
  - destruct (Row.id x =? Row.id row) eqn:E.
    + apply Nat.eqb_eq in E. exfalso. apply (Hfresh x); [now left | assumption].
    + apply IH. intros r Hr. apply Hfresh. now right.
Qed.

Lemma find_deleted (l : list Row.t) (n : nat) :
  List.find (fun r => Row.id r =? n) (List.filter (fun r => negb (Row.id r =? n)) l) = None.
Proof.
  induction l as [|x l IH]; [reflexivity|].
  simpl. destruct (Row.id x =? n) eqn:E; simpl; [exact IH | now rewrite E].
Qed.

(** ** What an upload does *)

Lemma accepted_or_rejected (req : request) :
  rejected req \/ exists f, accepted req f.
Proof.
  unfold rejected, accepted.
  destruct (files req !! "file"%string) as [f|]; [|left; now left].
  destruct (FileStorage.filename f) as [|c s] eqn:En; [left; right; eauto|].
  destruct (allowed_file (c :: s)) eqn:Ea.
  - right. exists f. rewrite En. repeat split; [discriminate | assumption].
  - left. right. exists f. split; [reflexivity|]. right.
    rewrite En, <- allowed_file_spec. congruence.
Qed.

Lemma upload_rejected now1 now2 io req w :
  rejected req ->
  exists msg, upload now1 now2 io req w
              = (inl {| status := 400; payload := JError msg |}, w, []).
Proof.
  unfold rejected, upload. intros [-> | (f & -> & [-> | Hno])]; [eauto .. |].
  destruct (FileStorage.filename f) as [|c s] eqn:En; [eauto|].
  rewrite <- allowed_file_spec in Hno.
  destruct (allowed_file (c :: s)); [congruence | simpl; eauto].
Qed.

Lemma upload_accepted_ok now1 now2 req f w :
  accepted req f ->
  let w1 := with_uploads <[stored_name_of now1 f := FileStorage.stream f]> w in
  let w2 := {| items := items w ++ [row_of now1 now2 req f (next_rowid w)];
               sqlite_sequence := next_rowid w;
               uploads := uploads w1 |} in
  upload now1 now2 SaveOk req w
  = (inl {| status := 201; payload := JCreated (next_rowid w) |}, w2,
     [(Saved (stored_name_of now1 f), w1); (Inserted (next_rowid w), w2)]).
Proof.
  intros (Hf & Hne & Hok). unfold upload. rewrite Hf.
  destruct f as [name mimetype data]. simpl in *.
  destruct name as [|c name]; [congruence|].
  rewrite Hok. reflexivity.
Qed.

Lemma upload_accepted_open_fails now1 now2 req f w :
  accepted req f ->
  upload now1 now2 SaveOpenFails req w = (inr OSError, w, []).
Proof.
  intros (Hf & Hne & Hok). unfold upload. rewrite Hf.
  destruct (FileStorage.filename f) eqn:En; [congruence|].
  rewrite Hok. reflexivity.
Qed.

Lemma upload_accepted_write_fails now1 now2 n req f w :
  accepted req f ->
  let w1 := with_uploads
              <[stored_name_of now1 f := take n (FileStorage.stream f)]> w in
  upload now1 now2 (SaveWriteFails n) req w
  = (inr OSError, w1, [(SaveAborted (stored_name_of now1 f), w1)]).
Proof.
  intros (Hf & Hne & Hok). unfold upload. rewrite Hf.
  destruct f as [name mimetype data]. simpl in *.
  destruct name as [|c name]; [congruence|].
  rewrite Hok. reflexivity.
Qed.

(** A 201 is only given to an accepted request whose file was written. *)
Lemma upload_201_inv now1 now2 io req w :
  status (response_of (Upload now1 now2 io req) w) = 201 ->
  io = SaveOk /\ exists f, accepted req f.
Proof.
  unfold response_of, serve, handler.
  destruct (accepted_or_rejected req) as [Hr | (f & Ha)].
  - destruct (upload_rejected now1 now2 io req w Hr) as (msg & ->). discriminate.
  - destruct io as [| |n].
    + eauto.
    + rewrite (upload_accepted_open_fails _ _ _ _ _ Ha). discriminate.
    + rewrite (upload_accepted_write_fails _ _ _ _ _ _ Ha). discriminate.
Qed.

Lemma or_empty_default (x : option str) : or_empty x = default [] x.
Proof. destruct x as [[|c s]|]; reflexivity. Qed.

Lemma strip_stripped_of (s : str) : stripped_of s (strip s).
Proof. apply strip_by_spec. Qed.

(** The row of a successful upload, as the next requests find it. *)
Lemma upload_then_select now1 now2 req f w :
  accepted req f ->
  let w' := world_after (Upload now1 now2 SaveOk req) w in
  response_of (Upload now1 now2 SaveOk req) w
  = {| status := 201; payload := JCreated (next_rowid w) |}
  /\ select_by_id (next_rowid w) w'
     = (inl (Some (row_of now1 now2 req f (next_rowid w))), w', [])
  /\ uploads w' !! stored_name_of now1 f = Some (FileStorage.stream f).
Proof.
  intros Ha. unfold world_after, response_of, serve, handler.
  rewrite (upload_accepted_ok _ _ _ _ _ Ha). simpl.
  split; [reflexivity | split].
  - unfold select_by_id, ret. simpl. do 3 f_equal.
    apply (find_fresh_row (items w) (row_of now1 now2 req f (next_rowid w))).
    intros r Hr. apply rowid_lt_next in Hr. simpl. lia.
  - apply lookup_insert_eq.
Qed.

Lemma upload_201_rowid now1 now2 io req w item_id :
  response_of (Upload now1 now2 io req) w
  = {| status := 201; payload := JCreated item_id |} ->
  io = SaveOk /\ item_id = next_rowid w /\ exists f, accepted req f.
Proof.
  intros H.
  destruct (upload_201_inv now1 now2 io req w) as (-> & f & Ha); [now rewrite H|].
  destruct (upload_then_select now1 now2 req f w Ha) as (Hr & _).
  rewrite Hr in H. injection H as <-. eauto.
Qed.

(** ** Upload and download *)

(** A row whose file is in the directory is downloaded under its original
    name when it has one. *)
Lemma download_found item_id w row data :
  List.find (fun r => Row.id r =? item_id) (items w) = Some row ->
  Row.original_name row <> [] ->
  uploads w !! Row.filename row = Some data ->
  response_of (Download item_id) w
  = {| status := 200; payload := Attachment (Row.original_name row) data |}.
Proof.
  intros Hfind Hname Hdata.
  unfold response_of, serve, handler, download, bind, select_by_id, ret.
  rewrite Hfind. unfold send_from_directory. rewrite Hdata.
  destruct (Row.original_name row); [congruence | reflexivity].
Qed.

Lemma select_found item_id w row :
  select_by_id item_id w = (inl (Some row), w, []) ->
  List.find (fun r => Row.id r =? item_id) (items w) = Some row.
Proof. unfold select_by_id, ret. congruence. Qed.

(** C1: after a successful upload, the download of the returned id answers
    200 with the uploaded bytes, as an attachment named by the sanitised
    original filename. *)
Theorem upload_download_roundtrip now1 now2 io req f w item_id :
  files req !! "file"%string = Some f ->
  response_of (Upload now1 now2 io req) w
  = {| status := 201; payload := JCreated item_id |} ->
  response_of (Download item_id) (world_after (Upload now1 now2 io req) w)
  = {| status := 200;
       payload := Attachment (secure_filename (FileStorage.filename f))
                             (FileStorage.stream f) |}.
Proof.
  intros Hf H.
  apply upload_201_rowid in H as (-> & -> & f' & Ha).
  assert (f' = f) as -> by (destruct Ha as (Hf' & _); congruence).
  destruct (upload_then_select now1 now2 req f w Ha) as (_ & Hsel & Hblob).
  apply (download_found _ _ (row_of now1 now2 req f (next_rowid w))).
  - now apply select_found.
  - destruct Ha as (_ & _ & Hok). now apply secure_filename_allowed.
  - exact Hblob.
Qed.

Lemma upload_download_roundtrip_witness :
  let req := upload_request "My Scan.JPG" [Byte.x50; Byte.x4b] " Palm leaf 1 " in
  response_of (Download 1) (world_after (Upload (noon 1) (noon 2) SaveOk req) empty_world)
  = {| status := 200;
       payload := Attachment (lit "My_Scan.JPG") [Byte.x50; Byte.x4b] |}.
Proof.
  intros req.
  apply (upload_download_roundtrip (noon 1) (noon 2) SaveOk req
           (file_part "My Scan.JPG" [Byte.x50; Byte.x4b]) empty_world 1).
  - vm_compute. reflexivity.
  - vm_compute. reflexivity.
Defined.

(** ** Rejected uploads *)

(** C6: an upload without a file part, with an empty filename or with a
    filename whose extension is not allowed is answered 400 with an error
    message; the table and the directory are left as they were and no change
    becomes visible. *)
Theorem upload_rejected_400 now1 now2 io req w :
  rejected req ->
  exists msg,
    serve (Upload now1 now2 io req) w
    = ({| status := 400; payload := JError msg |}, w, []).
Proof.
  intros Hr. unfold serve, handler.
  destruct (upload_rejected now1 now2 io req w Hr) as (msg & ->). eauto.
Qed.

Lemma not_allowed_exe : ~ has_allowed_extension (lit "malware.exe").
Proof. rewrite <- allowed_file_spec. vm_compute. congruence. Qed.

Lemma upload_rejected_400_witness :
  let req := upload_request "malware.exe" [Byte.x4d; Byte.x5a] "tool" in
  rejected req
  /\ exists msg,
       serve (Upload (noon 1) (noon 2) SaveOk req) empty_world
       = ({| status := 400; payload := JError msg |}, empty_world, []).
Proof.
  intros req.
  assert (Hr : rejected req).
  { right. exists (file_part "malware.exe" [Byte.x4d; Byte.x5a]).
    split; [vm_compute; reflexivity | right; exact not_allowed_exe]. }
  split; [exact Hr | exact (upload_rejected_400 (noon 1) (noon 2) SaveOk req empty_world Hr)].
Defined.

(** ** The recorded fields *)

Lemma upload_then_get_item now1 now2 io req f w item_id :
  files req !! "file"%string = Some f ->
  response_of (Upload now1 now2 io req) w
  = {| status := 201; payload := JCreated item_id |} ->
  response_of (GetItem item_id) (world_after (Upload now1 now2 io req) w)
  = {| status := 200; payload := JItem (row_of now1 now2 req f item_id) |}.
Proof.
  intros Hf H.
  apply upload_201_rowid in H as (-> & -> & f' & Ha).
  assert (f' = f) as -> by (destruct Ha as (Hf' & _); congruence).
  destruct (upload_then_select now1 now2 req f w Ha) as (_ & Hsel & _).
  unfold response_of at 1, serve, handler, get_item, bind.
  rewrite Hsel. reflexivity.
Qed.

Lemma strip_stored_for (x : option str) : stored_for x (strip (or_empty x)).
Proof.
  split.
  - rewrite or_empty_default. apply strip_stripped_of.
  - intros ->. reflexivity.
Qed.

(** C10: the row of a successful upload holds the title, description and
    tags of the form without their leading and trailing whitespace, each
    empty when its field is absent, and the mimetype the client sent, empty
    when there is none. *)
Theorem upload_records_stripped_fields now1 now2 io req f w item_id :
  files req !! "file"%string = Some f ->
  response_of (Upload now1 now2 io req) w
  = {| status := 201; payload := JCreated item_id |} ->
  exists row,
    response_of (GetItem item_id) (world_after (Upload now1 now2 io req) w)
    = {| status := 200; payload := JItem row |}
    /\ stored_for (form req !! "title"%string) (Row.title row)
    /\ stored_for (form req !! "description"%string) (Row.description row)
    /\ stored_for (form req !! "tags"%string) (Row.tags row)
    /\ Row.mime row = default [] (FileStorage.mimetype f).
Proof.
  intros Hf H. exists (row_of now1 now2 req f item_id).
  split; [now apply upload_then_get_item|].
  simpl. repeat split; try apply strip_stored_for; try (intros ->; reflexivity).
  apply or_empty_default.
Qed.

Lemma upload_records_stripped_fields_witness :
  let req := upload_request "scan1.jpg" [Byte.x01] "  Palm leaf 1 " in
  exists row,
    response_of (GetItem 1) (world_after (Upload (noon 1) (noon 2) SaveOk req) empty_world)
    = {| status := 200; payload := JItem row |}
    /\ stored_for (Some (lit "  Palm leaf 1 ")) (Row.title row)
    /\ stored_for None (Row.description row)
    /\ stored_for None (Row.tags row)
    /\ Row.mime row = lit "text/plain".
Proof.
  intros req.
  apply (upload_records_stripped_fields (noon 1) (noon 2) SaveOk req
           (file_part "scan1.jpg" [Byte.x01]) empty_world 1).
  - vm_compute. reflexivity.
  - vm_compute. reflexivity.
Defined.

(** ** The stored name *)

Lemma length_zpad (width : nat) (n : N) : length (zpad width n) = width.
Proof.
  revert n. induction width as [|k IH]; intros n; simpl; [reflexivity|].
  rewrite length_app, IH. simpl. lia.
Qed.

Lemma length_strftime (t : datetime) : length (strftime t) = 20.
Proof. unfold strftime. now rewrite !length_app, !length_zpad. Qed.

(** The claim of C4 read to the letter, the timestamp immediately followed
    by the sanitised name, fails: the code puts an underscore between. *)
Lemma stored_name_has_separator :
  let req := upload_request "scan1.jpg" [Byte.x01] "Palm leaf 1" in
  let w' := world_after (Upload (noon 1) (noon 2) SaveOk req) empty_world in
  exists row,
    response_of (GetItem 1) w' = {| status := 200; payload := JItem row |}
    /\ Row.filename row = lit "20240309120000000001_scan1.jpg"
    /\ Row.filename row <> strftime (noon 1) ++ secure_filename (lit "scan1.jpg").
Proof.
  eexists. split; [vm_compute; reflexivity|].
  split; [vm_compute; reflexivity | vm_compute; congruence].
Qed.

(** C4, amended: the stored name of a successful upload is the twenty
    digits of the first clock reading (year to microsecond), an underscore,
    and the sanitised original filename; the file is in the directory under
    that name. *)
Theorem stored_name_format now1 now2 io req f w item_id :
  files req !! "file"%string = Some f ->
  response_of (Upload now1 now2 io req) w
  = {| status := 201; payload := JCreated item_id |} ->
  let w' := world_after (Upload now1 now2 io req) w in
  exists row,
    response_of (GetItem item_id) w' = {| status := 200; payload := JItem row |}
    /\ Row.filename row
       = strftime now1 ++ lit "_" ++ secure_filename (FileStorage.filename f)
    /\ length (strftime now1) = 20
    /\ Row.original_name row = secure_filename (FileStorage.filename f)
    /\ uploads w' !! Row.filename row = Some (FileStorage.stream f).
Proof.
  intros Hf H w'. exists (row_of now1 now2 req f item_id).
  split; [now apply upload_then_get_item|].
  split; [reflexivity|]. split; [apply length_strftime|]. split; [reflexivity|].
  subst w'. apply upload_201_rowid in H as (-> & -> & f' & Ha).
  assert (f' = f) as -> by (destruct Ha as (Hf' & _); congruence).
  now destruct (upload_then_select now1 now2 req f w Ha) as (_ & _ & Hblob).
Qed.

Lemma stored_name_format_witness :
  let req := upload_request "scan1.jpg" [Byte.x01] "Palm leaf 1" in
  let w' := world_after (Upload (noon 1) (noon 2) SaveOk req) empty_world in
  exists row,
    response_of (GetItem 1) w' = {| status := 200; payload := JItem row |}
    /\ Row.filename row
       = strftime (noon 1) ++ lit "_" ++ secure_filename (lit "scan1.jpg")
    /\ length (strftime (noon 1)) = 20
    /\ Row.original_name row = secure_filename (lit "scan1.jpg")
    /\ uploads w' !! Row.filename row = Some [Byte.x01].
Proof.
  intros req.
  apply (stored_name_format (noon 1) (noon 2) SaveOk req
           (file_part "scan1.jpg" [Byte.x01]) empty_world 1).
  - vm_compute. reflexivity.
  - vm_compute. reflexivity.
Defined.

(** ** Listing with a blank query *)

Lemma strip_all_space (s : str) : forallb isspace s = true -> strip s = [].
Proof.
  intros H. unfold strip, strip_by, rstrip_by, lstrip_by.
  now rewrite (dropwhile_all isspace s H).
Qed.

(** C9: a query made of whitespace only, the empty one included, is listed
    as a request without query is: the query is stripped before it is
    used. *)
Theorem blank_query_lists_all (req req' : request) (q : str) (w : world) :
  args req !! "q"%string = Some q ->
  forallb isspace q = true ->
  args req' !! "q"%string = None ->
  serve (ListItems req) w = serve (ListItems req') w.
Proof.
  intros Hq Hblank Hnone. unfold serve, handler, list_items.
  rewrite Hq, Hnone, or_empty_default. simpl.
  now rewrite (strip_all_space q Hblank).
Qed.

Lemma blank_query_lists_all_witness :
  serve (ListItems (query_request "   ")) two_rows
  = serve (ListItems {| files := ∅; form := ∅; args := ∅ |}) two_rows.
Proof.
  apply (blank_query_lists_all _ _ (lit "   ")).
  - vm_compute. reflexivity.
  - vm_compute. reflexivity.
  - vm_compute. reflexivity.
Defined.

(** ** Deleting *)

Lemma delete_item_missing permitted item_id w :
  List.find (fun r => Row.id r =? item_id) (items w) = None ->
  delete_item permitted item_id w
  = (inl {| status := 404; payload := JError (lit "Not found") |}, w, []).
Proof.
  intros Hfind. unfold delete_item, bind, select_by_id, ret. now rewrite Hfind.
Qed.

(** The file is there and may be removed: it goes first, the row second. *)
Lemma delete_item_removes permitted item_id w row :
  List.find (fun r => Row.id r =? item_id) (items w) = Some row ->
  permitted = true ->
  is_Some (uploads w !! Row.filename row) ->
  delete_item permitted item_id w
  = (inl {| status := 200; payload := JSuccess |},
     without_row item_id (without_file (Row.filename row) w),
     [(Removed (Row.filename row), without_file (Row.filename row) w);
      (Deleted item_id, without_row item_id (without_file (Row.filename row) w))]).
Proof.
  intros Hfind -> [data Hdata].
  unfold delete_item, bind, select_by_id, ret, try_pass, os_remove.
  rewrite Hfind, Hdata. reflexivity.
Qed.

(** The removal fails: the failure is ignored and the row is deleted. *)
Lemma delete_item_keeps_file permitted item_id w row :
  List.find (fun r => Row.id r =? item_id) (items w) = Some row ->
  permitted = false \/ uploads w !! Row.filename row = None ->
  delete_item permitted item_id w
  = (inl {| status := 200; payload := JSuccess |},
     without_row item_id w, [(Deleted item_id, without_row item_id w)]).
Proof.
  intros Hfind Hfail.
  unfold delete_item, bind, select_by_id, ret, try_pass, os_remove.
  rewrite Hfind.
  destruct (uploads w !! Row.filename row) as [data|] eqn:Hdata; [|reflexivity].
  destruct Hfail as [-> | Hnone]; [reflexivity | discriminate].
Qed.

Lemma delete_item_found permitted item_id w row :
  List.find (fun r => Row.id r =? item_id) (items w) = Some row ->
  response_of (DeleteItem permitted item_id) w = {| status := 200; payload := JSuccess |}
  /\ items (world_after (DeleteItem permitted item_id) w)
     = List.filter (fun r => negb (Row.id r =? item_id)) (items w)
  /\ (uploads (world_after (DeleteItem permitted item_id) w) = uploads w
      \/ permitted = true
         /\ uploads (world_after (DeleteItem permitted item_id) w)
            = delete (Row.filename row) (uploads w)).
Proof.
  intros Hfind. unfold response_of, world_after, serve, handler.
  destruct permitted.
  - destruct (uploads w !! Row.filename row) as [data|] eqn:Hdata.
    + rewrite (delete_item_removes true item_id w row Hfind eq_refl) by eauto.
      simpl. auto.
    + rewrite (delete_item_keeps_file true item_id w row Hfind) by auto.
      simpl. auto.
  - rewrite (delete_item_keeps_file false item_id w row Hfind) by auto.
    simpl. auto.
Qed.

(** C7: when a row has the id, the delete answers success and the row is
    gone whatever happens to the file (a refused removal leaves the
    directory as it was and is not reported), the other rows stay, and a
    second delete of the id answers 404; when no row has the id, the delete
    answers 404 and changes nothing. *)
Theorem delete_item_outcome permitted item_id w :
  let w' := world_after (DeleteItem permitted item_id) w in
  let not_found := {| status := 404; payload := JError (lit "Not found") |} in
  match List.find (fun r => Row.id r =? item_id) (items w) with
  | Some row =>
      response_of (DeleteItem permitted item_id) w
      = {| status := 200; payload := JSuccess |}
      /\ items w' = List.filter (fun r => negb (Row.id r =? item_id)) (items w)
      /\ response_of (GetItem item_id) w' = not_found
      /\ (permitted = false -> uploads w' = uploads w)
      /\ forall permitted',
           serve (DeleteItem permitted' item_id) w' = (not_found, w', [])
  | None => serve (DeleteItem permitted item_id) w = (not_found, w, [])
  end.
Proof.
  intros w' not_found.
  destruct (List.find _ (items w)) as [row|] eqn:Hfind.
  - destruct (delete_item_found permitted item_id w row Hfind) as (Hr & Hitems & Hup).
    fold w' in Hitems, Hup.
    assert (Hgone : List.find (fun r => Row.id r =? item_id) (items w') = None)
      by (rewrite Hitems; apply find_deleted).
    split; [exact Hr|]. split; [exact Hitems|]. split; [|split].
    + unfold response_of, serve, handler, get_item, bind, select_by_id, ret.
      now rewrite Hgone.
    + intros ->. destruct Hup as [Hup | [Hp _]]; [exact Hup | discriminate].
    + intros permitted'. unfold serve, handler.
      now rewrite (delete_item_missing permitted' item_id w' Hgone).
  - unfold serve, handler. now rewrite (delete_item_missing permitted item_id w Hfind).
Qed.

Lemma first_row_found :
  List.find (fun r => Row.id r =? 1) (items two_rows) = Some first_row.
Proof. vm_compute. reflexivity. Qed.

Lemma delete_item_outcome_witness :
  response_of (DeleteItem false 1) two_rows = {| status := 200; payload := JSuccess |}
  /\ response_of (GetItem 1) (world_after (DeleteItem false 1) two_rows)
     = {| status := 404; payload := JError (lit "Not found") |}.
Proof.
  pose proof (delete_item_outcome false 1 two_rows) as H.
  cbv zeta in H. rewrite first_row_found in H.
  destruct H as (H1 & _ & H2 & _). split; assumption.
Defined.

Lemma get_item_found item_id w row :
  List.find (fun r => Row.id r =? item_id) (items w) = Some row <->
  response_of (GetItem item_id) w = {| status := 200; payload := JItem row |}.
Proof.
  unfold response_of, serve, handler, get_item, bind, select_by_id, ret.
  destruct (List.find _ (items w)) as [r|]; simpl; split; congruence.
Qed.

Lemma download_missing_file item_id w row :
  List.find (fun r => Row.id r =? item_id) (items w) = Some row ->
  uploads w !! Row.filename row = None ->
  response_of (Download item_id) w = {| status := 404; payload := ErrorPage |}.
Proof.
  intros Hfind Hnone.
  unfold response_of, serve, handler, download, bind, select_by_id, ret.
  rewrite Hfind. unfold send_from_directory. now rewrite Hnone.
Qed.

(** The claim of C2 fails: the file is removed first.  Between the two
    steps the row is still served while its download is answered 404. *)
Lemma delete_removes_file_first :
  let t := trace_of (DeleteItem true 1) one_row in
  fst <$> t = [Removed (lit "20240309120000000001_scan1.jpg"); Deleted 1]
  /\ response_of (GetItem 1) (state_at 0 t one_row)
     = {| status := 200; payload := JItem first_row |}
  /\ response_of (Download 1) (state_at 0 t one_row)
     = {| status := 404; payload := ErrorPage |}.
Proof. vm_compute. repeat split; reflexivity. Qed.

(** C2, amended: a delete of an item whose file is in the directory and may
    be removed makes two visible changes, the removal of the file and then
    the deletion of the row.  In between, the row is still served and its
    download is answered 404; afterwards the row is gone as well. *)
Theorem delete_removes_file_then_row item_id w row :
  response_of (GetItem item_id) w = {| status := 200; payload := JItem row |} ->
  is_Some (uploads w !! Row.filename row) ->
  let w' := world_after (DeleteItem true item_id) w in
  exists mid,
    trace_of (DeleteItem true item_id) w
    = [(Removed (Row.filename row), mid); (Deleted item_id, w')]
    /\ response_of (GetItem item_id) mid = {| status := 200; payload := JItem row |}
    /\ response_of (Download item_id) mid = {| status := 404; payload := ErrorPage |}
    /\ response_of (GetItem item_id) w'
       = {| status := 404; payload := JError (lit "Not found") |}
    /\ uploads w' !! Row.filename row = None.
Proof.
  intros Hrow Hfile w'. apply get_item_found in Hrow.
  exists (without_file (Row.filename row) w).
  assert (Hmid : uploads (without_file (Row.filename row) w) !! Row.filename row = None)
    by apply lookup_delete_eq.
  subst w'. unfold trace_of, world_after, serve, handler.
  rewrite (delete_item_removes true item_id w row Hrow eq_refl Hfile). simpl.
  split; [reflexivity|]. split; [now apply get_item_found|].
  split; [apply (download_missing_file item_id _ row); [exact Hrow | exact Hmid]|].
  split; [|exact Hmid].
  unfold response_of, serve, handler, get_item, bind, select_by_id, ret. simpl.
  now rewrite find_deleted.
Qed.

Lemma delete_removes_file_then_row_witness :
  exists mid,
    trace_of (DeleteItem true 1) one_row
    = [(Removed (Row.filename first_row), mid);
       (Deleted 1, world_after (DeleteItem true 1) one_row)]
    /\ response_of (GetItem 1) mid = {| status := 200; payload := JItem first_row |}
    /\ response_of (Download 1) mid = {| status := 404; payload := ErrorPage |}
    /\ response_of (GetItem 1) (world_after (DeleteItem true 1) one_row)
       = {| status := 404; payload := JError (lit "Not found") |}
    /\ uploads (world_after (DeleteItem true 1) one_row) !! Row.filename first_row = None.
Proof.
  apply (delete_removes_file_then_row 1 one_row first_row).
  - vm_compute. reflexivity.
  - exists [Byte.x01]. vm_compute. reflexivity.
Defined.

(** ** Rows and the files written for them *)

Lemma rows_saved_app seen t1 t2 :
  rows_saved seen t1 -> rows_saved (seen_after seen t1) t2 ->
  rows_saved seen (t1 ++ t2).
Proof.
  revert seen. induction t1 as [|[e s] t1 IH]; intros seen H1 H2; [exact H2|].
  destruct H1 as [Hs H1]. split; [exact Hs | now apply IH].
Qed.

(** The handlers that only read leave the world as it is. *)
Lemma list_items_reads req w : exists r, list_items req w = (inl r, w, []).
Proof.
  unfold list_items, bind, select_ordered, jsonify, ret.
  destruct (lower _); eauto.
Qed.

Lemma get_item_reads item_id w : exists r, get_item item_id w = (inl r, w, []).
Proof.
  unfold get_item, bind, select_by_id, jsonify, ret.
  destruct (List.find _ _); eauto.
Qed.

Lemma download_reads item_id w : exists r, download item_id w = (r, w, []).
Proof.
  unfold download, bind, select_by_id, ret, raise, send_from_directory.
  destruct (List.find _ _) as [row|]; [|eauto].
  destruct (uploads w !! Row.filename row); eauto.
Qed.

Lemma serve_reads c w r :
  handler c w = (r, w, []) -> trace_of c w = [] /\ world_after c w = w.
Proof.
  intros H. unfold trace_of, world_after, serve. rewrite H.
  destruct r as [r | [code|]]; auto.
Qed.

Lemma In_filter_row (f : Row.t -> bool) (l : list Row.t) row :
  In row (List.filter f l) -> In row l.
Proof. intros H. now apply filter_In in H. Qed.

(** One request keeps the rows among the written files. *)
Lemma serve_rows_saved seen c w :
  rows_known seen w ->
  rows_saved seen (trace_of c w)
  /\ rows_known (seen_after seen (trace_of c w)) (world_after c w).
Proof.
  intros Hknown.
  assert (Hread : forall r, handler c w = (r, w, []) ->
            rows_saved seen (trace_of c w)
            /\ rows_known (seen_after seen (trace_of c w)) (world_after c w)).
  { intros r Hr. destruct (serve_reads c w r Hr) as [-> ->]. now split. }
  destruct c as [now1 now2 io req | req | item_id | item_id | permitted item_id].
  - destruct (accepted_or_rejected req) as [Hrej | (f & Ha)].
    + destruct (upload_rejected now1 now2 io req w Hrej) as (msg & Hr). eauto.
    + destruct io as [| |n].
      * unfold trace_of, world_after, serve, handler.
        rewrite (upload_accepted_ok now1 now2 req f w Ha). simpl.
        assert (Hnew : forall row,
                  In row (items w ++ [row_of now1 now2 req f (next_rowid w)]) ->
                  In (Row.filename row) (stored_name_of now1 f :: seen)).
        { intros row Hin. apply in_app_or in Hin as [Hin | [<- | []]];
            [right; auto | now left]. }
        repeat split; [intros row Hin; right; auto | exact Hnew | exact Hnew].
      * eapply Hread, (upload_accepted_open_fails now1 now2 req f w Ha).
      * unfold trace_of, world_after, serve, handler.
        rewrite (upload_accepted_write_fails now1 now2 n req f w Ha). simpl.
        repeat split; exact Hknown.
  - destruct (list_items_reads req w) as (r & Hr). eauto.
  - destruct (get_item_reads item_id w) as (r & Hr). eauto.
  - destruct (download_reads item_id w) as (r & Hr). eauto.
  - destruct (List.find (fun r => Row.id r =? item_id) (items w)) as [row|] eqn:Hfind.
    + assert (Hless : forall r,
                In r (List.filter (fun r => negb (Row.id r =? item_id)) (items w)) ->
                In (Row.filename r) seen)
        by (intros r Hr; apply Hknown; eapply In_filter_row, Hr).
      unfold trace_of, world_after, serve, handler.
      destruct permitted;
        [destruct (uploads w !! Row.filename row) as [data|] eqn:Hdata|].
      * rewrite (delete_item_removes true item_id w row Hfind eq_refl) by eauto.
        simpl. repeat split; [exact Hknown | exact Hless | exact Hless].
      * rewrite (delete_item_keeps_file true item_id w row Hfind) by auto.
        simpl. repeat split; exact Hless.
      * rewrite (delete_item_keeps_file false item_id w row Hfind) by auto.
        simpl. repeat split; exact Hless.
    + eapply Hread, (delete_item_missing permitted item_id w Hfind).
Qed.

Lemma serve_all_rows_saved cs : forall seen w,
  rows_known seen w -> rows_saved seen (serve_all cs w).
Proof.
  induction cs as [|c cs IH]; intros seen w Hknown; [exact I|].
  destruct (serve_rows_saved seen c w Hknown) as [Hsaved Hnext].
  simpl. apply rows_saved_app; [exact Hsaved | now apply IH].
Qed.

(** C8: an upload whose write fails is answered with an error and leaves
    the table as it was; and whatever requests are served from the empty
    archive, every row of every visible world names a file whose write had
    completed before the row was committed. *)
Theorem upload_writes_file_before_row :
  (forall now1 now2 io req w,
     io <> SaveOk ->
     status (response_of (Upload now1 now2 io req) w) <> 201
     /\ items (world_after (Upload now1 now2 io req) w) = items w
     /\ forall e s rowid, In (e, s) (trace_of (Upload now1 now2 io req) w) ->
                          e <> Inserted rowid)
  /\ forall cs, rows_saved [] (serve_all cs empty_world).
Proof.
  split.
  - intros now1 now2 io req w Hio.
    destruct (accepted_or_rejected req) as [Hrej | (f & Ha)].
    + destruct (upload_rejected now1 now2 io req w Hrej) as (msg & Hr).
      unfold response_of, world_after, trace_of, serve, handler. rewrite Hr. simpl.
      repeat split; [discriminate | intros e s rowid []].
    + unfold response_of, world_after, trace_of, serve, handler.
      destruct io as [| |n]; [congruence | |].
      * rewrite (upload_accepted_open_fails now1 now2 req f w Ha). simpl.
        repeat split; [discriminate | intros e s rowid []].
      * rewrite (upload_accepted_write_fails now1 now2 n req f w Ha). simpl.
        repeat split; [discriminate|].
        intros e s rowid [[= <- _] | []]. discriminate.
  - intros cs. apply serve_all_rows_saved. intros row [].
Qed.

Lemma upload_writes_file_before_row_witness :
  let c := Upload (noon 1) (noon 2) (SaveWriteFails 1)
             (upload_request "scan1.jpg" [Byte.x01; Byte.x02] "Palm leaf 1") in
  status (response_of c one_row) = 500
  /\ items (world_after c one_row) = items one_row
  /\ rows_saved [] (serve_all [c; DeleteItem true 1] empty_world).
Proof.
  intros c. destruct upload_writes_file_before_row as [Hfail Hall].
  destruct (Hfail (noon 1) (noon 2) (SaveWriteFails 1)
              (upload_request "scan1.jpg" [Byte.x01; Byte.x02] "Palm leaf 1") one_row)
    as (_ & Hitems & _); [discriminate|].
  split; [vm_compute; reflexivity | split; [exact Hitems | apply Hall]].
Defined.

(** ** Uniqueness of stored names *)

Lemma digit_inj (d d' : N) : (d < 10)%N -> (d' < 10)%N -> digit d = digit d' -> d = d'.
Proof.
  unfold digit. intros Hd Hd' H. apply (f_equal N_of_ascii) in H.
  rewrite !N_ascii_embedding in H by lia. lia.
Qed.

Lemma zpad_inj (width : nat) : forall n m : N,
  (n < 10 ^ N.of_nat width)%N -> (m < 10 ^ N.of_nat width)%N ->
  zpad width n = zpad width m -> n = m.
Proof.
  induction width as [|k IH]; intros n m Hn Hm H.
  - simpl in Hn, Hm. lia.
  - rewrite Nat2N.inj_succ, N.pow_succ_r' in Hn, Hm. simpl in H.
    apply app_inj_tail in H as [Hdiv Hmod].
    apply IH in Hdiv; [| apply N.Div0.div_lt_upper_bound; lia ..].
    apply digit_inj in Hmod; [| apply N.mod_lt; lia ..].
    rewrite (N.div_mod n 10), (N.div_mod m 10) by lia. now rewrite Hdiv, Hmod.
Qed.

Lemma strftime_inj (t t' : datetime) :
  valid_datetime t = true -> valid_datetime t' = true ->
  strftime t = strftime t' -> t = t'.
Proof.
  unfold valid_datetime. intros Hv Hv' H.
  repeat match goal with
         | Hb : (_ && _) = true |- _ => apply andb_prop in Hb as [? ?]
         | Hb : (_ <=? _)%N = true |- _ => apply N.leb_le in Hb
         end.
  destruct t, t'. unfold strftime in H.
  cbn [year month day hour minute second microsecond] in *.
  repeat match type of H with
         | _ ++ _ = _ ++ _ =>
             apply app_inj_1 in H as [? H]; [| now rewrite !length_zpad]
         end.
  f_equal; eapply zpad_inj; try eassumption;
    match goal with
    | |- (_ < ?b)%N => let v := eval vm_compute in b in change b with v; lia
    end.
Qed.

(** Two stored names are equal only for the same clock reading and the
    same sanitised name. *)
Lemma stored_name_inj (t t' : datetime) (f f' : FileStorage.t) :
  valid_datetime t = true -> valid_datetime t' = true ->
  stored_name_of t f = stored_name_of t' f' ->
  t = t' /\ secure_filename (FileStorage.filename f)
            = secure_filename (FileStorage.filename f').
Proof.
  intros Hv Hv' H. unfold stored_name_of in H.
  apply app_inj_1 in H as [Ht H]; [| now rewrite !length_strftime].
  split; [now apply strftime_inj | now injection H].
Qed.

Lemma find_app_found (p : Row.t -> bool) (l1 l2 : list Row.t) row :
  List.find p l1 = Some row -> List.find p (l1 ++ l2) = Some row.
Proof.
  induction l1 as [|x l1 IH]; simpl; [discriminate|].
  destruct (p x); [trivial | exact IH].
Qed.

(** The claim of C5 fails: two uploads of the same name that read the same
    microsecond get the same stored name, and the second file replaces the
    first. *)
Lemma same_reading_same_stored_name :
  let c1 := Upload (noon 1) (noon 2) SaveOk (upload_request "scan1.jpg" [Byte.x01] "first") in
  let c2 := Upload (noon 1) (noon 3) SaveOk (upload_request "scan1.jpg" [Byte.x02] "second") in
  let w1 := world_after c1 empty_world in
  let w2 := world_after c2 w1 in
  response_of c1 empty_world = {| status := 201; payload := JCreated 1 |}
  /\ response_of c2 w1 = {| status := 201; payload := JCreated 2 |}
  /\ Row.filename <$> items w2
     = [lit "20240309120000000001_scan1.jpg"; lit "20240309120000000001_scan1.jpg"]
  /\ response_of (Download 1) w2
     = {| status := 200; payload := Attachment (lit "scan1.jpg") [Byte.x02] |}.
Proof. vm_compute. repeat split; reflexivity. Qed.

(** C5, amended: two successful uploads whose first clock readings differ,
    or whose sanitised filenames differ, are stored under distinct names;
    and when the second upload directly follows the first, each id is
    downloaded with its own bytes. *)
Theorem distinct_readings_distinct_names
    now1 now2 io req f w item_id now1' now2' io' req' f' w' item_id' :
  valid_datetime now1 = true -> valid_datetime now1' = true ->
  files req !! "file"%string = Some f ->
  files req' !! "file"%string = Some f' ->
  response_of (Upload now1 now2 io req) w
  = {| status := 201; payload := JCreated item_id |} ->
  response_of (Upload now1' now2' io' req') w'
  = {| status := 201; payload := JCreated item_id' |} ->
  now1 <> now1'
  \/ secure_filename (FileStorage.filename f) <> secure_filename (FileStorage.filename f') ->
  let w1 := world_after (Upload now1 now2 io req) w in
  let w2 := world_after (Upload now1' now2' io' req') w' in
  exists row row',
    response_of (GetItem item_id) w1 = {| status := 200; payload := JItem row |}
    /\ response_of (GetItem item_id') w2 = {| status := 200; payload := JItem row' |}
    /\ Row.filename row <> Row.filename row'
    /\ (w' = w1 ->
        response_of (Download item_id) w2
        = {| status := 200;
             payload := Attachment (secure_filename (FileStorage.filename f))
                                   (FileStorage.stream f) |}
        /\ response_of (Download item_id') w2
           = {| status := 200;
                payload := Attachment (secure_filename (FileStorage.filename f'))
                                      (FileStorage.stream f') |}).
Proof.
  intros Hv Hv' Hf Hf' H H' Hdiff w1 w2.
  exists (row_of now1 now2 req f item_id), (row_of now1' now2' req' f' item_id').
  assert (Hnames : stored_name_of now1 f <> stored_name_of now1' f').
  { intros E. apply stored_name_inj in E as [? ?]; [tauto | assumption ..]. }
  split; [now apply upload_then_get_item|].
  split; [now apply upload_then_get_item|].
  split; [exact Hnames|].
  intros ->.
  apply upload_201_rowid in H as (-> & -> & g & Ha).
  assert (g = f) as -> by (destruct Ha as (Hg & _); congruence).
  apply upload_201_rowid in H' as (-> & -> & g' & Ha').
  assert (g' = f') as -> by (destruct Ha' as (Hg' & _); congruence).
  destruct (upload_then_select now1 now2 req f w Ha) as (_ & Hsel & Hblob).
  destruct (upload_then_select now1' now2' req' f' w1 Ha') as (_ & Hsel' & Hblob').
  fold w1 in Hsel, Hblob. fold w2 in Hsel', Hblob'.
  apply select_found in Hsel, Hsel'.
  assert (Hw2 : items w2 = items w1 ++ [row_of now1' now2' req' f' (next_rowid w1)]
                /\ uploads w2 = <[stored_name_of now1' f' := FileStorage.stream f']> (uploads w1)).
  { subst w2. unfold world_after, serve, handler.
    now rewrite (upload_accepted_ok now1' now2' req' f' w1 Ha'). }
  destruct Hw2 as [Hitems Huploads].
  split.
  - apply (download_found _ _ (row_of now1 now2 req f (next_rowid w))).
    + rewrite Hitems. now apply find_app_found.
    + destruct Ha as (_ & _ & Hok). now apply secure_filename_allowed.
    + rewrite Huploads, lookup_insert_ne by (intros E; apply Hnames; symmetry; exact E).
      exact Hblob.
  - apply (download_found _ _ (row_of now1' now2' req' f' (next_rowid w1))).
    + exact Hsel'.
    + destruct Ha' as (_ & _ & Hok). now apply secure_filename_allowed.
    + exact Hblob'.
Qed.

Lemma distinct_readings_distinct_names_witness :
  let req1 := upload_request "scan1.jpg" [Byte.x01] "first" in
  let req2 := upload_request "scan1.jpg" [Byte.x02] "second" in
  let w1 := world_after (Upload (noon 1) (noon 2) SaveOk req1) empty_world in
  let w2 := world_after (Upload (noon 5) (noon 6) SaveOk req2) w1 in
  response_of (Download 1) w2
  = {| status := 200; payload := Attachment (lit "scan1.jpg") [Byte.x01] |}
  /\ response_of (Download 2) w2
     = {| status := 200; payload := Attachment (lit "scan1.jpg") [Byte.x02] |}.
Proof.
  intros req1 req2 w1 w2.
  destruct (distinct_readings_distinct_names
              (noon 1) (noon 2) SaveOk req1 (file_part "scan1.jpg" [Byte.x01]) empty_world 1
              (noon 5) (noon 6) SaveOk req2 (file_part "scan1.jpg" [Byte.x02]) w1 2)
    as (row & row' & _ & _ & _ & Hboth).
  - reflexivity.
  - reflexivity.
  - vm_compute. reflexivity.
  - vm_compute. reflexivity.
  - vm_compute. reflexivity.
  - vm_compute. reflexivity.
  - left. unfold noon. congruence.
  - exact (Hboth eq_refl).
Defined.

(** ** Listing and searching *)

Lemma starts_with_ci_spec (q t : str) :
  starts_with_ci q t = true <-> exists mid post, t = mid ++ post /\ lower mid = lower q.
Proof.
  revert t. induction q as [|c q IH]; intros t.
  - split; [exists [], t; auto | reflexivity].
  - destruct t as [|d t]; simpl.
    + split; [discriminate|]. intros (mid & post & E & Hl).
      destruct mid; [discriminate Hl | discriminate E].
    + rewrite andb_true_iff, Ascii.eqb_eq, IH. split.
      * intros (Hc & mid & post & -> & Hl). exists (d :: mid), post.
        simpl. split; [reflexivity | congruence].
      * intros (mid & post & E & Hl). destruct mid as [|e mid]; [discriminate Hl|].
        simpl in E, Hl. injection E as <- ->. injection Hl as Hc Hl. eauto.
Qed.

Lemma contains_ci_spec (q t : str) :
  contains_ci q t = true
  <-> exists pre mid post, t = pre ++ mid ++ post /\ lower mid = lower q.
Proof.
  induction t as [|d t IH]; simpl; rewrite orb_true_iff, starts_with_ci_spec.
  - split.
    + intros [(mid & post & E & Hl) | H]; [exists [], mid, post; auto | discriminate].
    + intros (pre & mid & post & E & Hl). left.
      destruct pre; [exists mid, post; auto | discriminate E].
  - rewrite IH. split.
    + intros [(mid & post & E & Hl) | (pre & mid & post & -> & Hl)].
      * exists [], mid, post. auto.
      * exists (d :: pre), mid, post. auto.
    + intros (pre & mid & post & E & Hl). destruct pre as [|e pre].
      * left. exists mid, post. auto.
      * right. simpl in E. injection E as <- ->. exists pre, mid, post. auto.
Qed.

Lemma lower_char_idem c : lower_char (lower_char c) = lower_char c.
Proof. destruct c as [[] [] [] [] [] [] [] []]; reflexivity. Qed.

Lemma lower_char_wildcard c : is_wildcard (lower_char c) = is_wildcard c.
Proof. destruct c as [[] [] [] [] [] [] [] []]; reflexivity. Qed.

Lemma like_percent (p t : str) :
  like ("%"%char :: p) t
  = like p t || match t with [] => false | _ :: t' => like ("%"%char :: p) t' end.
Proof. destruct t; reflexivity. Qed.

Lemma like_percent_all (t : str) : like ["%"%char] t = true.
Proof.
  induction t as [|d t IH]; [reflexivity|].
  rewrite like_percent, IH. apply orb_true_r.
Qed.

Lemma like_plain (c : ascii) (p t : str) :
  is_wildcard c = false ->
  like (c :: p) t
  = match t with
    | [] => false
    | d :: t' => Ascii.eqb (lower_char c) (lower_char d) && like p t'
    end.
Proof.
  unfold is_wildcard. intros H. apply orb_false_elim in H as [H1 H2].
  simpl. rewrite H1, H2. reflexivity.
Qed.

(** A pattern without wildcard followed by [%] matches the texts that start
    with it. *)
Lemma like_prefix (q t : str) :
  no_wildcard q = true ->
  like (lower q ++ ["%"%char]) (lower t) = starts_with_ci q t.
Proof.
  revert t. induction q as [|c q IH]; intros t Hq.
  - apply like_percent_all.
  - simpl in Hq. apply andb_prop in Hq as [Hc Hq]. apply negb_true_iff in Hc.
    change (lower (c :: q) ++ ["%"%char]) with (lower_char c :: (lower q ++ ["%"%char])).
    rewrite like_plain by now rewrite lower_char_wildcard.
    destruct t as [|d t]; [reflexivity|].
    change (lower (d :: t)) with (lower_char d :: lower t).
    cbn [starts_with_ci]. now rewrite !lower_char_idem, IH.
Qed.

(** Between two [%], it matches the texts that contain it. *)
Lemma like_infix (q t : str) :
  no_wildcard q = true ->
  like ("%"%char :: lower q ++ ["%"%char]) (lower t) = contains_ci q t.
Proof.
  intros Hq. induction t as [|d t IH].
  - rewrite like_percent, (like_prefix q [] Hq). cbn [lower map contains_ci].
    reflexivity.
  - rewrite like_percent, (like_prefix q (d :: t) Hq).
    change (lower (d :: t)) with (lower_char d :: lower t).
    cbn [contains_ci]. now rewrite IH.
Qed.

Lemma search_where_matches (q : str) (r : Row.t) :
  no_wildcard q = true ->
  search_where (lit "%" ++ lower q ++ lit "%") r = row_matches q r.
Proof.
  intros Hq. unfold search_where, row_matches.
  change (lit "%" ++ lower q ++ lit "%") with ("%"%char :: lower q ++ ["%"%char]).
  now rewrite !like_infix.
Qed.

Lemma filter_all_rows (l : list Row.t) : List.filter (fun _ => true) l = l.
Proof. induction l as [|x l IH]; simpl; [reflexivity | now rewrite IH]. Qed.

Lemma select_ordered_spec (where_ : Row.t -> bool) (w : world) :
  exists rows,
    select_ordered where_ w = (inl rows, w, [])
    /\ StronglySorted newer_first rows
    /\ rows ≡ₚ List.filter where_ (items w).
Proof.
  eexists. split; [reflexivity|]. split.
  - apply StronglySorted_merge_sort; apply _.
  - apply merge_sort_Permutation.
Qed.

(** The claim of C3 fails on two kinds of query.  The query is stripped
    before it is used, so a query with spaces around finds rows that do not
    contain it; and [_] and [%] reach LIKE as wildcards, so a query with one
    of them finds rows that do not contain it either. *)
Lemma search_is_not_plain_substring :
  response_of (ListItems (query_request " leaf  ")) one_row
  = {| status := 200; payload := JItems [first_row] |}
  /\ row_matches (lit " leaf  ") first_row = false
  /\ response_of (ListItems (query_request "p_lm")) one_row
     = {| status := 200; payload := JItems [first_row] |}
  /\ row_matches (lit "p_lm") first_row = false.
Proof. vm_compute. repeat split; reflexivity. Qed.

(** C3, amended: with [q] the query without its leading and trailing
    whitespace, the listing answers the rows in non-increasing order of
    [uploaded_at]; they are all the rows when [q] is empty and, when [q] is
    not empty and holds neither [%] nor [_], exactly the rows whose title,
    description or tags contain [q] without regard to case. *)
Theorem list_items_result (req : request) (w : world) :
  let q := strip (or_empty (args req !! "q"%string)) in
  no_wildcard q = true ->
  exists rows,
    serve (ListItems req) w = ({| status := 200; payload := JItems rows |}, w, [])
    /\ StronglySorted newer_first rows
    /\ rows ≡ₚ match q with
               | [] => items w
               | _ :: _ => List.filter (row_matches q) (items w)
               end.
Proof.
  intros q Hq. unfold serve, handler, list_items. fold q.
  destruct q as [|c q'] eqn:Eq.
  - destruct (select_ordered_spec (fun _ => true) w) as (rows & Hsel & Hsorted & Hperm).
    exists rows. cbn [lower map]. unfold bind. rewrite Hsel. cbn.
    rewrite filter_all_rows in Hperm. auto.
  - destruct (select_ordered_spec (search_where (lit "%" ++ lower (c :: q') ++ lit "%")) w)
      as (rows & Hsel & Hsorted & Hperm).
    exists rows. change (lower (c :: q')) with (lower_char c :: lower q') at 1.
    cbv iota. unfold bind. rewrite Hsel. cbn.
    split; [reflexivity|]. split; [exact Hsorted|].
    rewrite Hperm. erewrite filter_ext; [reflexivity|].
    intros r. now apply search_where_matches.
Qed.

Lemma list_items_result_witness :
  exists rows,
    serve (ListItems (query_request " LEAF ")) two_rows
    = ({| status := 200; payload := JItems rows |}, two_rows, [])
    /\ StronglySorted newer_first rows
    /\ rows ≡ₚ List.filter (row_matches (lit "LEAF")) (items two_rows).
Proof.
  apply (list_items_result (query_request " LEAF ") two_rows).
  vm_compute. reflexivity.
Defined.

(** * Further properties of the code *)

(** ** The extension test *)

Lemma lower_char_dot c : lower_char c = "."%char <-> c = "."%char.
Proof. destruct c as [[] [] [] [] [] [] [] []]; vm_compute; split; congruence. Qed.

Lemma In_lower_dot (s : str) : In "."%char (lower s) <-> In "."%char s.
Proof.
  unfold lower. rewrite in_map_iff. split.
  - intros (c & Hc & Hin). apply (proj1 (lower_char_dot c)) in Hc. subst c. exact Hin.
  - intros Hin. exists "."%char. split; [reflexivity | exact Hin].
Qed.

Lemma lower_idem (s : str) : lower (lower s) = lower s.
Proof.
  unfold lower. rewrite map_map. apply map_ext. intros c. apply lower_char_idem.
Qed.

Lemma has_allowed_extension_lower (filename : str) :
  has_allowed_extension (lower filename) <-> has_allowed_extension filename.
Proof.
  unfold has_allowed_extension. split.
  - intros (stem' & ext' & E & Hno & Hin).
    apply map_eq_app in E as (stem & rest & -> & Hstem & Hrest).
    destruct rest as [|c ext]; [discriminate Hrest|].
    simpl in Hrest. injection Hrest as Hc Hext.
    apply (proj1 (lower_char_dot c)) in Hc. subst c.
    exists stem, ext. split; [reflexivity|]. split.
    + intros Hd. apply Hno. rewrite <- Hext. now apply In_lower_dot.
    + fold (lower ext) in Hext. now rewrite <- lower_idem, Hext.
  - intros (stem & ext & -> & Hno & Hin).
    exists (lower stem), (lower ext). split; [|split].
    + unfold lower. now rewrite map_app.
    + now rewrite In_lower_dot.
    + now rewrite lower_idem.
Qed.

(** X1: only the text after the last dot counts, and its case does not: a
    name [stem.ext] whose [ext] holds no dot is allowed exactly when [ext]
    in lower case is one of the allowed extensions, whatever [stem] is. *)
Theorem allowed_file_last_extension (stem ext : str) :
  ~ In "."%char ext ->
  allowed_file (stem ++ "."%char :: ext) = bool_decide (lower ext ∈ ALLOWED_EXT).
Proof.
  intros Hno. unfold allowed_file. rewrite rsplit1_cut by assumption.
  assert (Hdot : contains_char "."%char (stem ++ "."%char :: ext) = true).
  { apply contains_char_In, in_or_app. right. now left. }
  rewrite Hdot. reflexivity.
Qed.

Lemma allowed_file_last_extension_witness :
  allowed_file (lit "report.png" ++ "."%char :: lit "exe") = false
  /\ allowed_file (lit "report.exe" ++ "."%char :: lit "PnG") = true.
Proof.
  split.
  - rewrite (allowed_file_last_extension (lit "report.png") (lit "exe")).
    + vm_compute. reflexivity.
    + apply forallb_notdot. reflexivity.
  - rewrite (allowed_file_last_extension (lit "report.exe") (lit "PnG")).
    + vm_compute. reflexivity.
    + apply forallb_notdot. reflexivity.
Defined.

(** X2: the test does not depend on the case of the name. *)
Theorem allowed_file_ignores_case (filename : str) :
  allowed_file (lower filename) = allowed_file filename.
Proof.
  pose proof (allowed_file_spec (lower filename)) as Hl.
  pose proof (allowed_file_spec filename) as Hf.
  pose proof (has_allowed_extension_lower filename) as Hiff.
  destruct (allowed_file (lower filename)), (allowed_file filename);
    try reflexivity.
  - assert (false = true) by (apply Hf, Hiff, Hl; reflexivity). congruence.
  - assert (false = true) by (apply Hl, Hiff, Hf; reflexivity). congruence.
Qed.

(** X3: a name without a dot is refused, even when it is an allowed
    extension by itself, and so is a name that ends with a dot. *)
Theorem allowed_file_needs_extension :
  (forall filename : str, ~ In "."%char filename -> allowed_file filename = false)
  /\ (forall stem : str, allowed_file (stem ++ ["."%char]) = false).
Proof.
  split.
  - intros filename Hno. unfold allowed_file.
    destruct (contains_char "."%char filename) eqn:E; [|reflexivity].
    apply contains_char_In in E. contradiction.
  - intros stem. unfold allowed_file.
    rewrite (rsplit1_cut stem []) by (intros []).
    rewrite andb_comm. reflexivity.
Qed.

(** ** The answers of an upload *)



(** ** The characters of a stored name *)

Lemma isdigit_digit (d : N) : (d < 10)%N -> isdigit (digit d) = true.
Proof.
  intros Hd.
  assert (H : (d = 0 \/ d = 1 \/ d = 2 \/ d = 3 \/ d = 4 \/ d = 5 \/ d = 6
               \/ d = 7 \/ d = 8 \/ d = 9)%N) by lia.
  repeat (destruct H as [-> | H]; [reflexivity|]). now subst.
Qed.

Lemma forallb_zpad (width : nat) (n : N) : forallb isdigit (zpad width n) = true.
Proof.
  revert n. induction width as [|k IH]; intros n; simpl; [reflexivity|].
  rewrite forallb_app, IH. simpl.
  rewrite isdigit_digit; [reflexivity | apply N.mod_lt; lia].
Qed.

Lemma forallb_strftime (t : datetime) : forallb isdigit (strftime t) = true.
Proof. unfold strftime. now rewrite !forallb_app, !forallb_zpad. Qed.

Lemma isdigit_keep c : isdigit c = true -> filename_keep c = true.
Proof. destruct c as [[] [] [] [] [] [] [] []]; vm_compute; congruence. Qed.

Lemma forallb_strip_by (p q : ascii -> bool) (s : str) :
  forallb q s = true -> forallb q (strip_by p s) = true.
Proof.
  intros H. destruct (strip_by_spec p s) as (l & r & E & _).
  rewrite E, !forallb_app in H.
  apply andb_prop in H as [_ H]. now apply andb_prop in H as [H _].
Qed.

Lemma forallb_filter_self (q : ascii -> bool) (s : str) :
  forallb q (List.filter q s) = true.
Proof.
  apply forallb_forall. intros c Hc. now apply filter_In in Hc.
Qed.

Lemma secure_filename_keep (filename : str) :
  forallb filename_keep (secure_filename filename) = true.
Proof. unfold secure_filename. apply forallb_strip_by, forallb_filter_self. Qed.

Lemma secure_filename_ends (filename : str) :
  (forall c, head (secure_filename filename) = Some c -> dot_or_underscore c = false)
  /\ (forall c, last (secure_filename filename) = Some c -> dot_or_underscore c = false).
Proof.
  unfold secure_filename.
  destruct (strip_by_spec dot_or_underscore
              (List.filter filename_keep
                 (join (lit "_")
                    (split (replace_char "/"%char " "%char
                              (List.filter (fun c => (code c <? 128)%N) filename))))))
    as (l & r & _ & _ & _ & Hhead & Hlast).
  split; assumption.
Qed.

(** X5: the name under which an upload stores a file is made of letters,
    digits, dots, dashes and underscores only, so it holds no slash; and
    the recorded original name neither starts nor ends with a dot or an
    underscore. *)
Theorem stored_name_is_safe now1 now2 io req w item_id :
  response_of (Upload now1 now2 io req) w
  = {| status := 201; payload := JCreated item_id |} ->
  exists row,
    response_of (GetItem item_id) (world_after (Upload now1 now2 io req) w)
    = {| status := 200; payload := JItem row |}
    /\ forallb filename_keep (Row.filename row) = true
    /\ ~ In "/"%char (Row.filename row)
    /\ ~ In "/"%char (Row.original_name row)
    /\ (forall c, head (Row.original_name row) = Some c -> dot_or_underscore c = false)
    /\ (forall c, last (Row.original_name row) = Some c -> dot_or_underscore c = false).
Proof.
  intros H.
  destruct (upload_201_rowid now1 now2 io req w item_id H) as (_ & _ & f & Ha).
  exists (row_of now1 now2 req f item_id).
  split; [apply upload_then_get_item; [apply Ha | exact H]|].
  assert (Hname : forallb filename_keep (stored_name_of now1 f) = true).
  { unfold stored_name_of. apply forallb_forall. intros c Hc.
    apply in_app_or in Hc as [Hc | [<- | Hc]].
    - apply isdigit_keep.
      pose proof (forallb_strftime now1) as Hd. rewrite forallb_forall in Hd. auto.
    - reflexivity.
    - pose proof (secure_filename_keep (FileStorage.filename f)) as Hk.
      rewrite forallb_forall in Hk. auto. }
  assert (Hslash : forall s : str, forallb filename_keep s = true -> ~ In "/"%char s).
  { intros s Hs Hin. rewrite forallb_forall in Hs. specialize (Hs _ Hin). discriminate. }
  cbn [row_of Row.filename Row.original_name].
  split; [exact Hname|]. split; [now apply Hslash|].
  split; [apply Hslash, secure_filename_keep|]. apply secure_filename_ends.
Qed.

Lemma stored_name_is_safe_witness :
  let c := Upload (noon 1) (noon 2) SaveOk
             (upload_request "../../etc/pass wd.TXT" [Byte.x01] "x") in
  exists row,
    response_of (GetItem 1) (world_after c empty_world)
    = {| status := 200; payload := JItem row |}
    /\ forallb filename_keep (Row.filename row) = true
    /\ ~ In "/"%char (Row.filename row)
    /\ ~ In "/"%char (Row.original_name row)
    /\ (forall c, head (Row.original_name row) = Some c -> dot_or_underscore c = false)
    /\ (forall c, last (Row.original_name row) = Some c -> dot_or_underscore c = false).
Proof.
  intros c. apply (stored_name_is_safe (noon 1) (noon 2) SaveOk _ empty_world 1).
  vm_compute. reflexivity.
Defined.

(** ** What a request can do to the world *)

(** The five ways a request leaves the world: as it was; with one more row
    and its file; with a file left by a failed write; with the rows of an id
    deleted; with the file of the first of them removed as well. *)
Lemma world_after_cases (c : call) (w : world) :
  world_after c w = w
  \/ (exists now1 now2 req f,
        c = Upload now1 now2 SaveOk req /\ accepted req f
        /\ world_after c w
           = {| items := items w ++ [row_of now1 now2 req f (next_rowid w)];
                sqlite_sequence := next_rowid w;
                uploads := <[stored_name_of now1 f := FileStorage.stream f]> (uploads w) |})
  \/ (exists name data, world_after c w = with_uploads <[name := data]> w)
  \/ (exists permitted item_id,
        c = DeleteItem permitted item_id /\ world_after c w = without_row item_id w)
  \/ (exists item_id row,
        c = DeleteItem true item_id
        /\ List.find (fun r => Row.id r =? item_id) (items w) = Some row
        /\ is_Some (uploads w !! Row.filename row)
        /\ world_after c w = without_row item_id (without_file (Row.filename row) w)).
Proof.
  unfold world_after, serve.
  destruct c as [now1 now2 io req | req | item_id | item_id | permitted item_id];
    cbn [handler].
  - destruct (accepted_or_rejected req) as [Hrej | (f & Ha)].
    + destruct (upload_rejected now1 now2 io req w Hrej) as (msg & ->). now left.
    + destruct io as [| |n].
      * right. left. exists now1, now2, req, f.
        rewrite (upload_accepted_ok now1 now2 req f w Ha). auto.
      * rewrite (upload_accepted_open_fails now1 now2 req f w Ha). now left.
      * right. right. left.
        rewrite (upload_accepted_write_fails now1 now2 n req f w Ha). simpl. eauto.
  - destruct (list_items_reads req w) as (r & ->). now left.
  - destruct (get_item_reads item_id w) as (r & ->). now left.
  - destruct (download_reads item_id w) as ([r | [code|]] & ->); now left.
  - destruct (List.find (fun r => Row.id r =? item_id) (items w)) as [row|] eqn:Hfind.
    + destruct permitted;
        [destruct (uploads w !! Row.filename row) as [data|] eqn:Hdata|].
      * do 4 right. exists item_id, row.
        rewrite (delete_item_removes true item_id w row Hfind eq_refl) by eauto.
        simpl. eauto.
      * do 3 right. left. exists true, item_id.
        rewrite (delete_item_keeps_file true item_id w row Hfind) by auto. auto.
      * do 3 right. left. exists false, item_id.
        rewrite (delete_item_keeps_file false item_id w row Hfind) by auto. auto.
    + rewrite (delete_item_missing permitted item_id w Hfind). now left.
Qed.

Lemma find_In_id (l : list Row.t) (n : nat) (row : Row.t) :
  List.find (fun r => Row.id r =? n) l = Some row -> In row l /\ Row.id row = n.
Proof.
  intros H. apply find_some in H as [Hin Hid]. split; [exact Hin | now apply Nat.eqb_eq].
Qed.

Lemma find_other_deleted (l : list Row.t) (n m : nat) :
  n <> m ->
  List.find (fun r => Row.id r =? m) (List.filter (fun r => negb (Row.id r =? n)) l)
  = List.find (fun r => Row.id r =? m) l.
Proof.
  intros Hne. induction l as [|x l IH]; [reflexivity|].
  simpl. destruct (Row.id x =? n) eqn:E; simpl.
  - apply Nat.eqb_eq in E. destruct (Row.id x =? m) eqn:E'; [|exact IH].
    apply Nat.eqb_eq in E'. congruence.
  - destruct (Row.id x =? m); [reflexivity | exact IH].
Qed.

(** ** Rows are never changed *)

(** X6: no request changes a row.  A row that [get_item] serves is served
    unchanged after any request, except a delete of its own id. *)
Theorem rows_are_immutable (c : call) (w : world) (item_id : nat) (row : Row.t) :
  response_of (GetItem item_id) w = {| status := 200; payload := JItem row |} ->
  (forall permitted, c <> DeleteItem permitted item_id) ->
  response_of (GetItem item_id) (world_after c w)
  = {| status := 200; payload := JItem row |}.
Proof.
  intros Hrow Hc. apply get_item_found in Hrow. apply get_item_found.
  destruct (world_after_cases c w)
    as [-> | [(now1 & now2 & req & f & _ & _ & ->)
       | [(name & data & ->)
       | [(permitted & n & -> & ->) | (n & r & -> & _ & _ & ->)]]]]; simpl.
  - exact Hrow.
  - now apply find_app_found.
  - exact Hrow.
  - rewrite find_other_deleted; [exact Hrow|]. intros ->. now apply (Hc permitted).
  - rewrite find_other_deleted; [exact Hrow|]. intros ->. now apply (Hc true).
Qed.

Lemma rows_are_immutable_witness :
  response_of (GetItem 1) (world_after (DeleteItem true 2) two_rows)
  = {| status := 200; payload := JItem first_row |}.
Proof.
  apply (rows_are_immutable (DeleteItem true 2) two_rows 1 first_row).
  - vm_compute. reflexivity.
  - intros permitted. discriminate.
Defined.

(** ** After a delete *)

(** X7: once an id has been deleted its download is answered 404, whether
    or not the id existed and whatever became of the file. *)
Theorem download_after_delete (permitted : bool) (item_id : nat) (w : world) :
  response_of (Download item_id) (world_after (DeleteItem permitted item_id) w)
  = {| status := 404; payload := ErrorPage |}.
Proof.
  assert (Hgone : List.find (fun r => Row.id r =? item_id)
                    (items (world_after (DeleteItem permitted item_id) w)) = None).
  { destruct (List.find (fun r => Row.id r =? item_id) (items w)) as [row|] eqn:Hfind.
    - destruct (delete_item_found permitted item_id w row Hfind) as (_ & -> & _).
      apply find_deleted.
    - unfold world_after, serve, handler.
      now rewrite (delete_item_missing permitted item_id w Hfind). }
  unfold response_of at 1, serve, handler, download, bind, select_by_id, ret.
  now rewrite Hgone.
Qed.

(** ** Rowids *)

Lemma NoDup_ids_filter (p : Row.t -> bool) (l : list Row.t) :
  NoDup (Row.id <$> l) -> NoDup (Row.id <$> List.filter p l).
Proof.
  induction l as [|x l IH]; [trivial|].
  rewrite fmap_cons, NoDup_cons. intros [Hx Hl].
  cbn [List.filter]. destruct (p x); [|auto].
  rewrite fmap_cons, NoDup_cons. split; [|auto].
  intros Hin. apply Hx.
  apply list_elem_of_fmap in Hin as (y & -> & Hy).
  apply list_elem_of_fmap. exists y. split; [reflexivity|].
  apply list_elem_of_In. apply list_elem_of_In in Hy. eapply In_filter_row, Hy.
Qed.

Lemma sqlite_sequence_le_next (w : world) : sqlite_sequence w < next_rowid w.
Proof. unfold next_rowid. apply Nat.lt_succ_r, Nat.le_max_l. Qed.

(** No request lowers the sequence. *)
Lemma sqlite_sequence_mono (c : call) (w : world) :
  sqlite_sequence w <= sqlite_sequence (world_after c w).
Proof.
  destruct (world_after_cases c w)
    as [-> | [(now1 & now2 & req & f & _ & _ & ->)
       | [(name & data & ->)
       | [(permitted & n & _ & ->) | (n & r & _ & _ & _ & ->)]]]]; simpl;
    try reflexivity.
  apply Nat.lt_le_incl, sqlite_sequence_le_next.
Qed.

Lemma sqlite_sequence_mono_all (cs : list call) : forall w,
  sqlite_sequence w <= sqlite_sequence (world_after_all cs w).
Proof.
  induction cs as [|c cs IH]; intros w; simpl; [reflexivity|].
  etransitivity; [apply (sqlite_sequence_mono c w) | apply IH].
Qed.

Lemma rowids_ok_step (c : call) (w : world) :
  rowids_ok w -> rowids_ok (world_after c w).
Proof.
  intros [Hnodup Hbound].
  destruct (world_after_cases c w)
    as [-> | [(now1 & now2 & req & f & _ & _ & ->)
       | [(name & data & ->)
       | [(permitted & n & _ & ->) | (n & r & _ & _ & _ & ->)]]]];
    unfold rowids_ok; simpl.
  - now split.
  - pose proof (sqlite_sequence_le_next w) as Hnext. split.
    + rewrite fmap_app. apply NoDup_app. split; [exact Hnodup|]. split.
      * intros x Hx Hnew. apply list_elem_of_fmap in Hx as (y & -> & Hy).
        apply list_elem_of_In in Hy. apply Hbound in Hy.
        apply list_elem_of_In in Hnew. simpl in Hnew.
        destruct Hnew as [Hnew | []]. lia.
      * apply NoDup_singleton.
    + intros r0 Hr. apply in_app_or in Hr as [Hr | [<- | []]].
      * specialize (Hbound _ Hr). lia.
      * simpl. lia.
  - now split.
  - split; [now apply NoDup_ids_filter|].
    intros r0 Hr. apply Hbound. eapply In_filter_row, Hr.
  - split; [now apply NoDup_ids_filter|].
    intros r0 Hr. apply Hbound. eapply In_filter_row, Hr.
Qed.

(** X8: whatever requests are served from the empty archive, the rowids of
    the table are distinct, positive and at most [sqlite_sequence]. *)
Theorem rowids_stay_distinct (cs : list call) :
  rowids_ok (world_after_all cs empty_world).
Proof.
  assert (H : forall w, rowids_ok w -> rowids_ok (world_after_all cs w)).
  { induction cs as [|c cs IH]; intros w Hw; simpl; [exact Hw|].
    apply IH, rowids_ok_step, Hw. }
  apply H. split; [constructor | intros r []].
Qed.

(** X9: a rowid is never given twice.  The id of a successful upload is
    greater than the id of any earlier successful upload, whatever requests
    (deletes included) were served in between. *)
Theorem rowid_never_reused
    now1 now2 io req w id1 (cs : list call) now1' now2' io' req' id2 :
  response_of (Upload now1 now2 io req) w
  = {| status := 201; payload := JCreated id1 |} ->
  response_of (Upload now1' now2' io' req')
              (world_after_all cs (world_after (Upload now1 now2 io req) w))
  = {| status := 201; payload := JCreated id2 |} ->
  id1 < id2.
Proof.
  intros H1 H2.
  apply upload_201_rowid in H1 as (-> & -> & f & Ha).
  apply upload_201_rowid in H2 as (-> & -> & f' & Ha').
  set (w1 := world_after (Upload now1 now2 SaveOk req) w).
  assert (Hseq : sqlite_sequence w1 = next_rowid w).
  { subst w1. unfold world_after, serve, handler.
    now rewrite (upload_accepted_ok now1 now2 req f w Ha). }
  pose proof (sqlite_sequence_mono_all cs w1) as Hmono.
  pose proof (sqlite_sequence_le_next (world_after_all cs w1)) as Hnext.
  lia.
Qed.

Lemma rowid_never_reused_witness :
  let u1 := Upload (noon 1) (noon 2) SaveOk (upload_request "scan1.jpg" [Byte.x01] "a") in
  let u2 := Upload (noon 5) (noon 6) SaveOk (upload_request "scan2.jpg" [Byte.x02] "b") in
  response_of u2 (world_after_all [DeleteItem true 1] (world_after u1 empty_world))
  = {| status := 201; payload := JCreated 2 |}
  /\ 1 < 2.
Proof.
  intros u1 u2.
  assert (H2 : response_of u2 (world_after_all [DeleteItem true 1] (world_after u1 empty_world))
               = {| status := 201; payload := JCreated 2 |})
    by (vm_compute; reflexivity).
  split; [exact H2|].
  apply (rowid_never_reused (noon 1) (noon 2) SaveOk
           (upload_request "scan1.jpg" [Byte.x01] "a") empty_world 1
           [DeleteItem true 1]
           (noon 5) (noon 6) SaveOk (upload_request "scan2.jpg" [Byte.x02] "b") 2).
  - vm_compute. reflexivity.
  - exact H2.
Defined.

(** ** The shape of the rows *)

Lemma dropwhile_id (p : ascii -> bool) (s : str) :
  (forall c, head s = Some c -> p c = false) -> dropwhile p s = s.
Proof.
  destruct s as [|c s]; [reflexivity|]. intros H. simpl.
  now rewrite (H c eq_refl).
Qed.

Lemma strip_by_idem (p : ascii -> bool) (s : str) :
  strip_by p (strip_by p s) = strip_by p s.
Proof.
  destruct (strip_by_spec p s) as (l & r & _ & _ & _ & Hhead & Hlast).
  set (t := strip_by p s) in *.
  unfold strip_by at 1, rstrip_by, lstrip_by.
  rewrite (dropwhile_id p t Hhead).
  rewrite (dropwhile_id p (rev t)); [apply rev_involutive|].
  intros c Hc. apply Hlast. now rewrite <- head_rev.
Qed.

Lemma row_of_shape now1 now2 req f rowid :
  accepted req f -> row_shape (row_of now1 now2 req f rowid).
Proof.
  intros (_ & _ & Hok). unfold row_shape. cbn [row_of Row.original_name Row.filename
    Row.title Row.description Row.tags].
  split; [now apply secure_filename_allowed|].
  split; [apply secure_filename_keep|].
  split; [exists (strftime now1); split; [apply length_strftime|];
          split; [apply forallb_strftime | reflexivity]|].
  repeat split; apply strip_by_idem.
Qed.

Lemma row_shape_step (c : call) (w : world) :
  (forall r, In r (items w) -> row_shape r) ->
  forall r, In r (items (world_after c w)) -> row_shape r.
Proof.
  intros Hall r.
  destruct (world_after_cases c w)
    as [-> | [(now1 & now2 & req & f & _ & Ha & ->)
       | [(name & data & ->)
       | [(permitted & n & _ & ->) | (n & r0 & _ & _ & _ & ->)]]]]; simpl.
  - apply Hall.
  - intros Hr. apply in_app_or in Hr as [Hr | [<- | []]];
      [now apply Hall | now apply row_of_shape].
  - apply Hall.
  - intros Hr. eapply Hall, In_filter_row, Hr.
  - intros Hr. eapply Hall, In_filter_row, Hr.
Qed.

Lemma download_200_inv (item_id : nat) (w : world) (name : str) (data : list Byte.byte) :
  response_of (Download item_id) w
  = {| status := 200; payload := Attachment name data |} ->
  exists r,
    List.find (fun r => Row.id r =? item_id) (items w) = Some r
    /\ uploads w !! Row.filename r = Some data
    /\ name = match Row.original_name r with [] => Row.filename r | o => o end.
Proof.
  unfold response_of, serve, handler, download, bind, select_by_id, ret.
  destruct (List.find _ (items w)) as [r|] eqn:Hfind; [|discriminate].
  unfold send_from_directory.
  destruct (uploads w !! Row.filename r) as [d|] eqn:Hdata; [|discriminate].
  simpl. intros [= <- <-]. exists r. auto.
Qed.

(** X10: whatever requests are served from the empty archive, every row
    has the shape that [upload] gives it; hence a download that is answered
    200 always carries the original name of the row of that id, never the
    stored name that [download] would fall back to. *)
Theorem rows_keep_their_shape (cs : list call) :
  let w := world_after_all cs empty_world in
  (forall r, In r (items w) -> row_shape r)
  /\ forall item_id name data,
       response_of (Download item_id) w
       = {| status := 200; payload := Attachment name data |} ->
       exists r, In r (items w) /\ Row.id r = item_id
                 /\ name = Row.original_name r /\ name <> Row.filename r
                 /\ uploads w !! Row.filename r = Some data.
Proof.
  intros w.
  assert (Hshape : forall r, In r (items w) -> row_shape r).
  { subst w.
    assert (H : forall w0, (forall r, In r (items w0) -> row_shape r) ->
                forall r, In r (items (world_after_all cs w0)) -> row_shape r).
    { induction cs as [|c cs IH]; intros w0 Hw0; simpl; [exact Hw0|].
      apply IH, row_shape_step, Hw0. }
    apply H. intros r []. }
  split; [exact Hshape|].
  intros item_id name data Hd.
  apply download_200_inv in Hd as (r & Hfind & Hdata & Hname).
  apply find_In_id in Hfind as [Hin Hid].
  destruct (Hshape r Hin) as (Hne & _ & (ts & Hlen & _ & Hfile) & _).
  exists r. split; [exact Hin|]. split; [exact Hid|].
  destruct (Row.original_name r) as [|c o] eqn:Eo; [congruence|].
  subst name. split; [reflexivity|]. split; [|exact Hdata].
  rewrite Hfile. intros E. apply (f_equal (@length ascii)) in E.
  rewrite !length_app in E. simpl in E. lia.
Qed.

(** ** What an upload and a delete leave alone *)

(** X11: an upload never removes anything.  The rows it finds stay first in
    the table, at most one row is added, every file of the directory is
    still there, and at most one name of the directory changes content. *)
Theorem upload_only_adds now1 now2 io req w :
  let w' := world_after (Upload now1 now2 io req) w in
  (exists new, items w' = items w ++ new /\ length new <= 1)
  /\ (forall name, is_Some (uploads w !! name) -> is_Some (uploads w' !! name))
  /\ exists name, forall other, other <> name -> uploads w' !! other = uploads w !! other.
Proof.
  intros w'. subst w'.
  destruct (world_after_cases (Upload now1 now2 io req) w)
    as [-> | [(n1 & n2 & rq & f & _ & _ & ->)
       | [(name & data & ->)
       | [(permitted & n & Hc & _) | (n & r & Hc & _)]]]];
    try discriminate Hc; simpl.
  - split; [exists []; split; [now rewrite app_nil_r | simpl; lia]|].
    split; [trivial | exists []; reflexivity].
  - split; [eexists; split; [reflexivity | simpl; lia]|]. split.
    + intros name Hn.
      destruct (decide (stored_name_of n1 f = name)) as [<- | Hne];
        [rewrite lookup_insert_eq; eauto | now rewrite lookup_insert_ne].
    + exists (stored_name_of n1 f). intros other Hne. now rewrite lookup_insert_ne.
  - split; [exists []; split; [now rewrite app_nil_r | simpl; lia]|]. split.
    + intros other Hn.
      destruct (decide (name = other)) as [<- | Hne];
        [rewrite lookup_insert_eq; eauto | now rewrite lookup_insert_ne].
    + exists name. intros other Hne. now rewrite lookup_insert_ne.
Qed.

(** X12: a delete never adds anything.  The table keeps its other rows in
    their order, the sequence stays, and every file of the directory was
    there before with the same content. *)
Theorem delete_only_removes permitted item_id w :
  let w' := world_after (DeleteItem permitted item_id) w in
  (forall r, In r (items w') <-> In r (items w) /\ Row.id r <> item_id)
  /\ sqlite_sequence w' = sqlite_sequence w
  /\ forall name data, uploads w' !! name = Some data -> uploads w !! name = Some data.
Proof.
  intros w'.
  assert (Hfilter : forall r, In r (List.filter (fun r => negb (Row.id r =? item_id)) (items w))
                              <-> In r (items w) /\ Row.id r <> item_id).
  { intros r. rewrite filter_In, negb_true_iff, Nat.eqb_neq. reflexivity. }
  destruct (List.find (fun r => Row.id r =? item_id) (items w)) as [row|] eqn:Hfind.
  - subst w'. unfold world_after, serve, handler.
    destruct permitted;
      [destruct (uploads w !! Row.filename row) as [data|] eqn:Hdata|].
    + rewrite (delete_item_removes true item_id w row Hfind eq_refl) by eauto. simpl.
      split; [exact Hfilter|]. split; [reflexivity|].
      intros name d Hd. apply lookup_delete_Some in Hd. tauto.
    + rewrite (delete_item_keeps_file true item_id w row Hfind) by auto. simpl.
      split; [exact Hfilter|]. split; [reflexivity | trivial].
    + rewrite (delete_item_keeps_file false item_id w row Hfind) by auto. simpl.
      split; [exact Hfilter|]. split; [reflexivity | trivial].
  - subst w'. unfold world_after, serve, handler.
    rewrite (delete_item_missing permitted item_id w Hfind). simpl.
    split; [|split; [reflexivity | trivial]].
    intros r. split; [|tauto]. intros Hr. split; [exact Hr|].
    intros Hid. apply (find_none _ _ Hfind) in Hr. simpl in Hr.
    rewrite Hid, Nat.eqb_refl in Hr. discriminate.
Qed.

(** ** Rows and their files *)

Lemma NoDup_filename_inj (l : list Row.t) (a b : Row.t) :
  NoDup (Row.filename <$> l) -> In a l -> In b l ->
  Row.filename a = Row.filename b -> a = b.
Proof.
  induction l as [|x l IH]; [intros _ []|].
  rewrite fmap_cons, NoDup_cons. intros [Hx Hl] Ha Hb E.
  assert (Hin : forall r, In r l -> Row.filename r ∈ Row.filename <$> l).
  { intros r Hr. apply list_elem_of_fmap. exists r. split; [reflexivity|].
    now apply list_elem_of_In. }
  destruct Ha as [<- | Ha], Hb as [<- | Hb].
  - reflexivity.
  - exfalso. apply Hx. rewrite E. now apply Hin.
  - exfalso. apply Hx. rewrite <- E. now apply Hin.
  - now apply IH.
Qed.

(** X13: an upload, whatever its outcome, keeps a file in the directory for
    every row of the table when there was one before. *)
Theorem upload_keeps_rows_with_files now1 now2 io req w :
  rows_have_files w ->
  rows_have_files (world_after (Upload now1 now2 io req) w).
Proof.
  intros Hw r Hr.
  destruct (world_after_cases (Upload now1 now2 io req) w)
    as [E | [(n1 & n2 & rq & f & _ & _ & E)
       | [(name & data & E)
       | [(permitted & n & Hc & _) | (n & r0 & Hc & _)]]]];
    try discriminate Hc; rewrite E in Hr |- *; simpl in *.
  - now apply Hw.
  - apply in_app_or in Hr as [Hr | [<- | []]].
    + destruct (decide (stored_name_of n1 f = Row.filename r)) as [<- | Hne];
        [rewrite lookup_insert_eq; eauto | rewrite lookup_insert_ne by exact Hne].
      now apply Hw.
    + simpl. rewrite lookup_insert_eq. eauto.
  - destruct (decide (name = Row.filename r)) as [<- | Hne];
      [rewrite lookup_insert_eq; eauto | rewrite lookup_insert_ne by exact Hne].
    now apply Hw.
Qed.

Lemma one_row_has_file : rows_have_files one_row.
Proof.
  intros r Hr. vm_compute in Hr. destruct Hr as [<- | []].
  exists [Byte.x01]. vm_compute. reflexivity.
Qed.

Lemma upload_keeps_rows_with_files_witness :
  rows_have_files
    (world_after (Upload (noon 7) (noon 8) (SaveWriteFails 0)
                    (upload_request "scan1.jpg" [Byte.x02] "again"))
       one_row).
Proof.
  apply upload_keeps_rows_with_files. exact one_row_has_file.
Defined.

(** X14: when no two rows share a stored name, a delete keeps a file in the
    directory for every remaining row. *)
Theorem delete_keeps_rows_with_files permitted item_id w :
  rows_have_files w ->
  NoDup (Row.filename <$> items w) ->
  rows_have_files (world_after (DeleteItem permitted item_id) w).
Proof.
  intros Hw Hnodup r Hr.
  destruct (world_after_cases (DeleteItem permitted item_id) w)
    as [E | [(n1 & n2 & rq & f & Hc & _)
       | [(name & data & E)
       | [(p & n & Hc & E) | (n & r0 & Hc & Hfind & _ & E)]]]];
    try discriminate Hc; rewrite E in Hr |- *; simpl in *.
  - now apply Hw.
  - destruct (decide (name = Row.filename r)) as [<- | Hne'];
      [rewrite lookup_insert_eq; eauto | rewrite lookup_insert_ne by exact Hne'].
    now apply Hw.
  - eapply Hw, In_filter_row, Hr.
  - injection Hc as Hp Hn. subst n.
    apply filter_In in Hr as [Hr Hid]. apply negb_true_iff, Nat.eqb_neq in Hid.
    apply find_In_id in Hfind as [Hr0 Hid0].
    rewrite lookup_delete_ne; [now apply Hw|].
    intros E'. apply Hid.
    rewrite <- (NoDup_filename_inj (items w) r0 r Hnodup Hr0 Hr E'). exact Hid0.
Qed.

Lemma two_rows_have_files : rows_have_files two_rows.
Proof.
  intros r Hr. vm_compute in Hr. destruct Hr as [<- | [<- | []]].
  - exists [Byte.x01]. vm_compute. reflexivity.
  - exists [Byte.x02]. vm_compute. reflexivity.
Qed.

Lemma two_rows_names_differ : NoDup (Row.filename <$> items two_rows).
Proof. apply (bool_decide_unpack _). vm_compute. exact I. Qed.

Lemma delete_keeps_rows_with_files_witness :
  rows_have_files (world_after (DeleteItem true 1) two_rows).
Proof.
  apply delete_keeps_rows_with_files;
    [exact two_rows_have_files | exact two_rows_names_differ].
Defined.

(** X15: when two rows share a stored name, the delete of one removes the
    file of both: the other row is still served, and its download is
    answered 404. *)
Theorem delete_takes_shared_file (w : world) (id1 id2 : nat) (r1 r2 : Row.t) :
  response_of (GetItem id1) w = {| status := 200; payload := JItem r1 |} ->
  response_of (GetItem id2) w = {| status := 200; payload := JItem r2 |} ->
  id1 <> id2 ->
  Row.filename r1 = Row.filename r2 ->
  is_Some (uploads w !! Row.filename r1) ->
  let w' := world_after (DeleteItem true id1) w in
  response_of (GetItem id2) w' = {| status := 200; payload := JItem r2 |}
  /\ response_of (Download id2) w' = {| status := 404; payload := ErrorPage |}.
Proof.
  intros H1 H2 Hne Hname Hfile w'.
  apply get_item_found in H1, H2.
  assert (Hw' : w' = without_row id1 (without_file (Row.filename r1) w)).
  { subst w'. unfold world_after, serve, handler.
    now rewrite (delete_item_removes true id1 w r1 H1 eq_refl Hfile). }
  assert (Hfind : List.find (fun r => Row.id r =? id2) (items w') = Some r2).
  { rewrite Hw'. simpl. now rewrite find_other_deleted. }
  split; [now apply get_item_found|].
  apply (download_missing_file id2 w' r2 Hfind).
  rewrite Hw', <- Hname. simpl. apply lookup_delete_eq.
Qed.

Lemma delete_takes_shared_file_witness :
  let c1 := Upload (noon 1) (noon 2) SaveOk (upload_request "scan1.jpg" [Byte.x01] "first") in
  let c2 := Upload (noon 1) (noon 3) SaveOk (upload_request "scan1.jpg" [Byte.x02] "second") in
  let w := world_after c2 (world_after c1 empty_world) in
  status (response_of (GetItem 2) (world_after (DeleteItem true 1) w)) = 200
  /\ response_of (Download 2) (world_after (DeleteItem true 1) w)
     = {| status := 404; payload := ErrorPage |}.
Proof.
  intros c1 c2 w.
  destruct (delete_takes_shared_file w 1 2
              (row_of (noon 1) (noon 2) (upload_request "scan1.jpg" [Byte.x01] "first")
                 (file_part "scan1.jpg" [Byte.x01]) 1)
              (row_of (noon 1) (noon 3) (upload_request "scan1.jpg" [Byte.x02] "second")
                 (file_part "scan1.jpg" [Byte.x02]) 2))
    as [Hget Hdown].
  - vm_compute. reflexivity.
  - vm_compute. reflexivity.
  - discriminate.
  - reflexivity.
  - exists [Byte.x02]. vm_compute. reflexivity.
  - split; [now rewrite Hget | exact Hdown].
Defined.

(** ** The order of the upload times *)

Lemma str_le_compare (a b : str) : str_le a b <-> str_compare a b <> Gt.
Proof.
  unfold str_le, String.le, String.leb, str_compare.
  destruct (String.compare _ _); simpl; intuition congruence.
Qed.

Lemma str_compare_cons (c d : ascii) (a b : str) :
  str_compare (c :: a) (d :: b) = then_compare (Ascii.compare c d) (str_compare a b).
Proof. unfold str_compare. simpl. now destruct (Ascii.compare c d). Qed.

Lemma str_compare_same (c : ascii) (a b : str) :
  str_compare (c :: a) (c :: b) = str_compare a b.
Proof.
  rewrite str_compare_cons. unfold Ascii.compare. now rewrite N.compare_refl.
Qed.

Lemma compare_digit (x y : N) :
  (x < 10)%N -> (y < 10)%N -> Ascii.compare (digit x) (digit y) = (x ?= y)%N.
Proof.
  intros Hx Hy. unfold Ascii.compare, digit.
  rewrite !N_ascii_embedding by lia.
  destruct (N.compare_spec x y), (N.compare_spec (48 + x) (48 + y)); (reflexivity || lia).
Qed.

Lemma compare_by_digits (a b : N) (c : comparison) :
  then_compare (a / 10 ?= b / 10)%N (then_compare (a mod 10 ?= b mod 10)%N c)
  = then_compare (a ?= b)%N c.
Proof.
  assert (H10 : 10%N <> 0%N) by discriminate.
  pose proof (N.div_mod a 10 H10) as Ha. pose proof (N.div_mod b 10 H10) as Hb.
  pose proof (N.mod_lt a 10 H10) as Ha'. pose proof (N.mod_lt b 10 H10) as Hb'.
  revert Ha Hb Ha' Hb'.
  generalize (a / 10)%N (b / 10)%N (a mod 10)%N (b mod 10)%N.
  intros qa qb ra rb Ha Hb Ha' Hb'.
  destruct (N.compare_spec qa qb) as [Eq | Hlt | Hgt]; simpl.
  - destruct (N.compare_spec ra rb) as [Er | Hr | Hr];
      destruct (N.compare_spec a b); simpl; (reflexivity || lia).
  - destruct (N.compare_spec a b); simpl; (reflexivity || lia).
  - destruct (N.compare_spec a b); simpl; (reflexivity || lia).
Qed.

(** Two numbers printed on the same number of digits compare as texts the
    way they compare as numbers. *)
Lemma zpad_compare (width : nat) : forall (a b : N) (r1 r2 : str),
  (a < 10 ^ N.of_nat width)%N -> (b < 10 ^ N.of_nat width)%N ->
  str_compare (zpad width a ++ r1) (zpad width b ++ r2)
  = then_compare (a ?= b)%N (str_compare r1 r2).
Proof.
  induction width as [|k IH]; intros a b r1 r2 Ha Hb.
  - simpl in Ha, Hb. assert (a = 0%N) as -> by lia. assert (b = 0%N) as -> by lia.
    reflexivity.
  - rewrite Nat2N.inj_succ, N.pow_succ_r' in Ha, Hb.
    cbn [zpad]. rewrite <- !app_assoc. cbn [app].
    rewrite IH by (apply N.Div0.div_lt_upper_bound; lia).
    rewrite str_compare_cons, compare_digit by (apply N.mod_lt; lia).
    apply compare_by_digits.
Qed.

(** The fraction of [isoformat], left out when it is zero. *)
Lemma fraction_compare (a b : N) :
  (a < 10 ^ 6)%N -> (b < 10 ^ 6)%N ->
  str_compare (if (a =? 0)%N then [] else lit "." ++ zpad 6 a)
              (if (b =? 0)%N then [] else lit "." ++ zpad 6 b)
  = (a ?= b)%N.
Proof.
  intros Ha Hb.
  assert (Hpad : forall x y : N, (x < 10 ^ 6)%N -> (y < 10 ^ 6)%N ->
            str_compare (lit "." ++ zpad 6 x) (lit "." ++ zpad 6 y) = (x ?= y)%N).
  { intros x y Hx Hy. change (lit "." ++ zpad 6 x) with ("."%char :: zpad 6 x).
    change (lit "." ++ zpad 6 y) with ("."%char :: zpad 6 y).
    rewrite str_compare_same, <- (app_nil_r (zpad 6 x)), <- (app_nil_r (zpad 6 y)).
    rewrite (zpad_compare 6 x y [] []) by assumption.
    now destruct (x ?= y)%N. }
  destruct (N.eqb_spec a 0) as [-> | Ha0], (N.eqb_spec b 0) as [-> | Hb0].
  - reflexivity.
  - destruct (N.compare_spec 0 b); [lia | | lia].
    change (lit "." ++ zpad 6 b) with ("."%char :: zpad 6 b). reflexivity.
  - destruct (N.compare_spec a 0); [lia | lia |].
    change (lit "." ++ zpad 6 a) with ("."%char :: zpad 6 a). reflexivity.
  - now apply Hpad.
Qed.

Lemma isoformat_compare (t t' : datetime) :
  valid_datetime t = true -> valid_datetime t' = true ->
  str_compare (isoformat t) (isoformat t') = datetime_compare t t'.
Proof.
  unfold valid_datetime. intros Hv Hv'.
  repeat match goal with
         | Hb : (_ && _) = true |- _ => apply andb_prop in Hb as [? ?]
         | Hb : (_ <=? _)%N = true |- _ => apply N.leb_le in Hb
         end.
  unfold isoformat, datetime_compare.
  change (lit "-") with ["-"%char]. change (lit "T") with ["T"%char].
  change (lit ":") with [":"%char]. cbn [app].
  repeat (rewrite zpad_compare
            by (match goal with
                | |- (_ < ?b)%N => let v := eval vm_compute in b in change b with v; lia
                end);
          f_equal; try rewrite str_compare_same).
  apply fraction_compare;
    match goal with
    | |- (_ < ?b)%N => let v := eval vm_compute in b in change b with v; lia
    end.
Qed.

(** X16: the texts that [isoformat] gives to two clock readings compare, as
    SQLite compares them, the way the readings follow each other in time,
    although the fraction is left out when it is zero. *)
Theorem isoformat_order (t t' : datetime) :
  valid_datetime t = true -> valid_datetime t' = true ->
  (str_le (isoformat t) (isoformat t') <-> datetime_compare t t' <> Gt).
Proof.
  intros Hv Hv'. now rewrite str_le_compare, isoformat_compare.
Qed.

Lemma isoformat_order_witness :
  str_le (isoformat (noon 0)) (isoformat (noon 1))
  /\ ~ str_le (isoformat (noon 1)) (isoformat (noon 0)).
Proof.
  split.
  - apply (isoformat_order (noon 0) (noon 1)); [reflexivity | reflexivity |].
    vm_compute. discriminate.
  - intros H. apply (isoformat_order (noon 1) (noon 0)) in H; [|reflexivity ..].
    apply H. vm_compute. reflexivity.
Defined.

Lemma datetime_compare_antisym (t t' : datetime) :
  valid_datetime t = true -> valid_datetime t' = true ->
  datetime_compare t' t = CompOpp (datetime_compare t t').
Proof.
  intros Hv Hv'.
  rewrite <- (isoformat_compare t' t), <- (isoformat_compare t t') by assumption.
  unfold str_compare. apply String.compare_antisym.
Qed.

Lemma list_items_sorted (req : request) (w : world) (rows : list Row.t) :
  response_of (ListItems req) w = {| status := 200; payload := JItems rows |} ->
  StronglySorted newer_first rows.
Proof.
  unfold response_of, serve, handler, list_items, bind.
  destruct (lower _) as [|c q].
  - destruct (select_ordered_spec (fun _ => true) w) as (l & -> & Hsorted & _).
    simpl. intros [= <-]. exact Hsorted.
  - destruct (select_ordered_spec (search_where (lit "%" ++ (c :: q) ++ lit "%")) w)
      as (l & -> & Hsorted & _).
    simpl. intros [= <-]. exact Hsorted.
Qed.

Lemma StronglySorted_lookup_lt (l : list Row.t) (i j : nat) (a b : Row.t) :
  StronglySorted newer_first l -> i < j ->
  l !! i = Some a -> l !! j = Some b -> newer_first a b.
Proof.
  intros Hs. revert i j. induction Hs as [|x l Hl IH Hx]; intros i j Hij Hi Hj.
  - discriminate Hi.
  - destruct j as [|j]; [lia|]. destruct i as [|i].
    + injection Hi as <-. simpl in Hj.
      rewrite Forall_forall in Hx. apply Hx.
      apply list_elem_of_lookup. eauto.
    + simpl in Hi, Hj. apply (IH i j); [lia | assumption ..].
Qed.

(** X17: no listing, searched or not, shows a row before a row that was
    uploaded later: of two rows of the answer whose [uploaded_at] are the
    texts of two clock readings, the one listed first is not the older. *)
Theorem listing_is_newest_first
    (req : request) (w : world) (rows : list Row.t) (i j : nat) (a b : Row.t)
    (ta tb : datetime) :
  response_of (ListItems req) w = {| status := 200; payload := JItems rows |} ->
  i < j -> rows !! i = Some a -> rows !! j = Some b ->
  Row.uploaded_at a = isoformat ta -> Row.uploaded_at b = isoformat tb ->
  valid_datetime ta = true -> valid_datetime tb = true ->
  datetime_compare ta tb <> Lt.
Proof.
  intros Hresp Hij Ha Hb Eta Etb Hva Hvb.
  apply list_items_sorted in Hresp.
  pose proof (StronglySorted_lookup_lt rows i j a b Hresp Hij Ha Hb) as Hnew.
  unfold newer_first in Hnew. rewrite Eta, Etb in Hnew.
  apply str_le_compare in Hnew. rewrite isoformat_compare in Hnew by assumption.
  rewrite (datetime_compare_antisym ta tb) in Hnew by assumption.
  destruct (datetime_compare ta tb); simpl in Hnew; congruence.
Qed.

Lemma listing_is_newest_first_witness :
  datetime_compare (noon 8) (noon 2) <> Lt.
Proof.
  apply (listing_is_newest_first
           {| files := ∅; form := ∅; args := ∅ |} two_rows
           [row_of (noon 7) (noon 8) (upload_request "b.txt" [Byte.x02] "Folk song")
              (file_part "b.txt" [Byte.x02]) 2;
            first_row]
           0 1
           (row_of (noon 7) (noon 8) (upload_request "b.txt" [Byte.x02] "Folk song")
              (file_part "b.txt" [Byte.x02]) 2)
           first_row (noon 8) (noon 2)).
  - vm_compute. reflexivity.
  - lia.
  - reflexivity.
  - reflexivity.
  - reflexivity.
  - vm_compute. reflexivity.
  - reflexivity.
  - reflexivity.
Defined.

(** ** Wildcards in a query *)

Lemma like_underscores (n : nat) : forall t : str,
  like (replicate n "_"%char ++ ["%"%char]) t = (n <=? length t).
Proof.
  induction n as [|n IH]; intros t.
  - apply like_percent_all.
  - destruct t as [|d t]; [reflexivity|]. simpl. apply IH.
Qed.

Lemma like_any_underscores (n : nat) (t : str) :
  like ("%"%char :: replicate n "_"%char ++ ["%"%char]) t = (n <=? length t).
Proof.
  induction t as [|d t IH]; rewrite like_percent, like_underscores.
  - apply orb_false_r.
  - rewrite IH. simpl length.
    destruct (Nat.leb_spec n (S (length t))), (Nat.leb_spec n (length t));
      (reflexivity || lia).
Qed.

Lemma like_percents (n : nat) (t : str) :
  like (replicate n "%"%char ++ ["%"%char]) t = true.
Proof.
  induction n as [|n IH]; [apply like_percent_all|].
  change (replicate (S n) "%"%char ++ ["%"%char])
    with ("%"%char :: (replicate n "%"%char ++ ["%"%char])).
  rewrite like_percent, IH. reflexivity.
Qed.

Lemma lower_replicate (n : nat) (c : ascii) :
  lower_char c = c -> lower (replicate n c) = replicate n c.
Proof.
  intros Hc. induction n as [|n IH]; [reflexivity|]. simpl. now rewrite Hc, IH.
Qed.

Lemma length_lower (s : str) : length (lower s) = length s.
Proof. apply length_map. Qed.

Lemma list_items_where (req : request) (w : world) (c : ascii) (q : str) :
  lower (strip (or_empty (args req !! "q"%string))) = c :: q ->
  exists rows,
    response_of (ListItems req) w = {| status := 200; payload := JItems rows |}
    /\ rows ≡ₚ List.filter (search_where ("%"%char :: (c :: q) ++ ["%"%char])) (items w).
Proof.
  intros Hq. unfold response_of, serve, handler, list_items, bind. rewrite Hq.
  destruct (select_ordered_spec (search_where (lit "%" ++ (c :: q) ++ lit "%")) w)
    as (rows & -> & _ & Hperm).
  exists rows. split; [reflexivity | exact Hperm].
Qed.

(** X18: an underscore in a query stands for any character.  A query of
    [n] underscores, [n] at least one, lists the rows that have a title, a
    description or tags of at least [n] characters, whatever they are. *)
Theorem underscore_query_matches_by_length (req : request) (w : world) (n : nat) :
  strip (or_empty (args req !! "q"%string)) = replicate (S n) "_"%char ->
  exists rows,
    response_of (ListItems req) w = {| status := 200; payload := JItems rows |}
    /\ rows ≡ₚ List.filter
                 (fun r => (S n <=? length (Row.title r))
                           || (S n <=? length (Row.description r))
                           || (S n <=? length (Row.tags r)))
                 (items w).
Proof.
  intros Hq.
  destruct (list_items_where req w "_"%char (replicate n "_"%char)) as (rows & Hr & Hperm).
  { rewrite Hq. now rewrite lower_replicate. }
  exists rows. split; [exact Hr|]. rewrite Hperm.
  erewrite filter_ext; [reflexivity|].
  intros r. unfold search_where.
  change ("%"%char :: ("_"%char :: replicate n "_"%char) ++ ["%"%char])
    with ("%"%char :: replicate (S n) "_"%char ++ ["%"%char]).
  now rewrite !like_any_underscores, !length_lower.
Qed.

Lemma underscore_query_matches_by_length_witness :
  exists rows,
    response_of (ListItems (query_request "____________")) two_rows
    = {| status := 200; payload := JItems rows |}
    /\ rows ≡ₚ List.filter
                 (fun r => (12 <=? length (Row.title r))
                           || (12 <=? length (Row.description r))
                           || (12 <=? length (Row.tags r)))
                 (items two_rows).
Proof.
  apply (underscore_query_matches_by_length (query_request "____________") two_rows 11).
  vm_compute. reflexivity.
Defined.

(** X19: a percent sign in a query stands for any text.  A query made of
    percent signs only lists every row, as no query does. *)
Theorem percent_query_lists_all (req : request) (w : world) (n : nat) :
  strip (or_empty (args req !! "q"%string)) = replicate (S n) "%"%char ->
  exists rows,
    response_of (ListItems req) w = {| status := 200; payload := JItems rows |}
    /\ rows ≡ₚ items w.
Proof.
  intros Hq.
  destruct (list_items_where req w "%"%char (replicate n "%"%char)) as (rows & Hr & Hperm).
  { rewrite Hq. now rewrite lower_replicate. }
  exists rows. split; [exact Hr|]. rewrite Hperm.
  erewrite filter_ext; [now rewrite filter_all_rows|].
  intros r. unfold search_where.
  change ("%"%char :: ("%"%char :: replicate n "%"%char) ++ ["%"%char])
    with (replicate (S (S n)) "%"%char ++ ["%"%char]).
  now rewrite like_percents.
Qed.

Lemma percent_query_lists_all_witness :
  exists rows,
    response_of (ListItems (query_request " %% ")) two_rows
    = {| status := 200; payload := JItems rows |}
    /\ rows ≡ₚ items two_rows.
Proof.
  apply (percent_query_lists_all (query_request " %% ") two_rows 1).
  vm_compute. reflexivity.
Defined.

(** ** Escaping in the page *)

Lemma flat_map_flat_map (f g : ascii -> str) (s : str) :
  flat_map g (flat_map f s) = flat_map (fun c => flat_map g (f c)) s.
Proof.
  induction s as [|c s IH]; [reflexivity|].
  simpl. now rewrite flat_map_app, IH.
Qed.

Lemma escapeHtml_flat_map (s : option str) :
  escapeHtml s = flat_map escape_char (or_empty s).
Proof.
  unfold escapeHtml, replaceAll. rewrite !flat_map_flat_map.
  apply flat_map_ext. intros c.
  destruct c as [[] [] [] [] [] [] [] []]; reflexivity.
Qed.

Lemma escape_char_no_markup (c : ascii) :
  ~ In "<"%char (escape_char c) /\ ~ In ">"%char (escape_char c).
Proof.
  destruct c as [[] [] [] [] [] [] [] []]; vm_compute; intuition congruence.
Qed.

(** X20: [escapeHtml] replaces each ampersand, [<] and [>] of the text by
    its entity, once, and keeps every other character, so that the three
    replacements in a row do not escape an entity again; no [<] and no [>]
    is left in what it returns. *)
Theorem escapeHtml_escapes_each_character (s : option str) :
  escapeHtml s = flat_map escape_char (or_empty s)
  /\ ~ In "<"%char (escapeHtml s)
  /\ ~ In ">"%char (escapeHtml s).
Proof.
  split; [apply escapeHtml_flat_map|].
  rewrite escapeHtml_flat_map. split; intros Hin;
    apply in_flat_map in Hin as (c & _ & Hc);
    destruct (escape_char_no_markup c) as [Hlt Hgt]; contradiction.
Qed.

Lemma escape_char_cases (c : ascii) :
  (c = "&"%char /\ escape_char c = lit "&amp;")
  \/ (c = "<"%char /\ escape_char c = lit "&lt;")
  \/ (c = ">"%char /\ escape_char c = lit "&gt;")
  \/ (c <> "&"%char /\ escape_char c = [c]).
Proof.
  unfold escape_char.
  destruct (Ascii.eqb_spec c "&"%char) as [-> | Hamp]; [now left|].
  destruct (Ascii.eqb_spec c "<"%char) as [-> | Hlt]; [right; now left|].
  destruct (Ascii.eqb_spec c ">"%char) as [-> | Hgt]; [right; right; now left|].
  do 3 right. now split.
Qed.

Lemma flat_map_escape_inj (s : str) : forall t : str,
  flat_map escape_char s = flat_map escape_char t -> s = t.
Proof.
  induction s as [|c s IH]; intros [|d t] H.
  - reflexivity.
  - cbn [flat_map] in H.
    destruct (escape_char_cases d) as [[_ E] | [[_ E] | [[_ E] | [_ E]]]];
      rewrite E in H; discriminate H.
  - cbn [flat_map] in H.
    destruct (escape_char_cases c) as [[_ E] | [[_ E] | [[_ E] | [_ E]]]];
      rewrite E in H; discriminate H.
  - cbn [flat_map] in H.
    destruct (escape_char_cases c) as [[Hc Ec] | [[Hc Ec] | [[Hc Ec] | [Hc Ec]]]];
      destruct (escape_char_cases d) as [[Hd Ed] | [[Hd Ed] | [[Hd Ed] | [Hd Ed]]]];
      rewrite Ec, Ed in H; simpl in H;
      try discriminate H;
      injection H; clear H; intros; subst;
      first [congruence | f_equal; apply IH; assumption].
Qed.

(** X21: escaping loses nothing: two texts that [escapeHtml] turns into
    the same text are the same. *)
Theorem escapeHtml_injective (s t : str) :
  escapeHtml (Some s) = escapeHtml (Some t) -> s = t.
Proof.
  rewrite !escapeHtml_flat_map, !or_empty_default. simpl. apply flat_map_escape_inj.
Qed.

Lemma escapeHtml_injective_witness :
  escapeHtml (Some (lit "a<b")) = escapeHtml (Some (lit "a<b")) /\ lit "a<b" = lit "a<b".
Proof.
  split; [reflexivity|].
  apply (escapeHtml_injective (lit "a<b") (lit "a<b")). reflexivity.
Defined.

(** ** Requests that only read *)

(** X22: a listing, a lookup and a download change neither the table nor
    the directory and make no change that another request could see. *)
Theorem reads_change_nothing (c : call) (w : world) :
  (forall now1 now2 io req, c <> Upload now1 now2 io req) ->
  (forall permitted item_id, c <> DeleteItem permitted item_id) ->
  world_after c w = w /\ trace_of c w = [].
Proof.
  intros Hup Hdel.
  destruct c as [now1 now2 io req | req | item_id | item_id | permitted item_id].
  - now destruct (Hup now1 now2 io req).
  - destruct (list_items_reads req w) as (r & Hr).
    destruct (serve_reads (ListItems req) w (inl r) Hr). now split.
  - destruct (get_item_reads item_id w) as (r & Hr).
    destruct (serve_reads (GetItem item_id) w (inl r) Hr). now split.
  - destruct (download_reads item_id w) as (r & Hr).
    destruct (serve_reads (Download item_id) w r Hr). now split.
  - now destruct (Hdel permitted item_id).
Qed.

Lemma reads_change_nothing_witness :
  world_after (Download 1) two_rows = two_rows /\ trace_of (Download 1) two_rows = [].
Proof.
  apply reads_change_nothing; intros; discriminate.
Defined.

(** X23: [get_item] answers 200 with a row of the table that has the id
    asked for, or 404 with "Not found" when no row of the table has it. *)
Theorem get_item_answers (item_id : nat) (w : world) :
  (exists row,
     response_of (GetItem item_id) w = {| status := 200; payload := JItem row |}
     /\ In row (items w) /\ Row.id row = item_id)
  \/ (response_of (GetItem item_id) w
      = {| status := 404; payload := JError (lit "Not found") |}
      /\ forall r, In r (items w) -> Row.id r <> item_id).
Proof.
  destruct (List.find (fun r => Row.id r =? item_id) (items w)) as [row|] eqn:Hfind.
  - left. exists row. split; [now apply get_item_found|]. now apply find_In_id.
  - right. split.
    + unfold response_of, serve, handler, get_item, bind, select_by_id, ret.
      now rewrite Hfind.
    + intros r Hr Hid. apply (find_none _ _ Hfind) in Hr. simpl in Hr.
      rewrite Hid, Nat.eqb_refl in Hr. discriminate.
Qed.

(** ** Listing after an upload and after a delete *)

Lemma list_items_no_query (req : request) (w : world) :
  args req !! "q"%string = None ->
  exists rows,
    response_of (ListItems req) w = {| status := 200; payload := JItems rows |}
    /\ rows ≡ₚ items w.
Proof.
  intros Hq. unfold response_of, serve, handler, list_items, bind. rewrite Hq.
  destruct (select_ordered_spec (fun _ => true) w) as (rows & Hsel & _ & Hperm).
  exists rows. cbn [or_empty strip strip_by lstrip_by rstrip_by dropwhile rev lower map].
  rewrite Hsel. split; [reflexivity|]. now rewrite filter_all_rows in Hperm.
Qed.

Lemma list_items_rows (req : request) (w : world) (rows : list Row.t) :
  response_of (ListItems req) w = {| status := 200; payload := JItems rows |} ->
  forall r, In r rows -> In r (items w).
Proof.
  unfold response_of, serve, handler, list_items, bind.
  assert (H : forall p l, select_ordered p w = (inl l, w, []) ->
                          l ≡ₚ List.filter p (items w) ->
                          forall r, In r l -> In r (items w)).
  { intros p l _ Hperm r Hr. apply list_elem_of_In in Hr. rewrite Hperm in Hr.
    apply list_elem_of_In in Hr. eapply In_filter_row, Hr. }
  destruct (lower _) as [|c q].
  - destruct (select_ordered_spec (fun _ => true) w) as (l & Hsel & _ & Hperm).
    rewrite Hsel. simpl. intros [= <-]. eapply H; eassumption.
  - destruct (select_ordered_spec (search_where (lit "%" ++ (c :: q) ++ lit "%")) w)
      as (l & Hsel & _ & Hperm).
    rewrite Hsel. simpl. intros [= <-]. eapply H; eassumption.
Qed.

(** X24: after a successful upload, the listing without query holds the
    new row and the rows that were there, and nothing else. *)
Theorem upload_then_list now1 now2 io req w item_id (req' : request) :
  response_of (Upload now1 now2 io req) w
  = {| status := 201; payload := JCreated item_id |} ->
  args req' !! "q"%string = None ->
  let w' := world_after (Upload now1 now2 io req) w in
  exists row rows,
    response_of (GetItem item_id) w' = {| status := 200; payload := JItem row |}
    /\ response_of (ListItems req') w' = {| status := 200; payload := JItems rows |}
    /\ rows ≡ₚ row :: items w.
Proof.
  intros H Hq w'.
  destruct (upload_201_rowid now1 now2 io req w item_id H) as (-> & -> & f & Ha).
  destruct (list_items_no_query req' w' Hq) as (rows & Hlist & Hperm).
  exists (row_of now1 now2 req f (next_rowid w)), rows.
  split; [apply upload_then_get_item; [apply Ha | exact H]|].
  split; [exact Hlist|].
  rewrite Hperm. subst w'. unfold world_after, serve, handler.
  rewrite (upload_accepted_ok now1 now2 req f w Ha). simpl.
  symmetry. apply Permutation_cons_append.
Qed.

Lemma upload_then_list_witness :
  let c := Upload (noon 7) (noon 8) SaveOk (upload_request "b.txt" [Byte.x02] "Folk song") in
  exists row rows,
    response_of (GetItem 2) (world_after c one_row)
    = {| status := 200; payload := JItem row |}
    /\ response_of (ListItems {| files := ∅; form := ∅; args := ∅ |}) (world_after c one_row)
       = {| status := 200; payload := JItems rows |}
    /\ rows ≡ₚ row :: items one_row.
Proof.
  intros c.
  apply (upload_then_list (noon 7) (noon 8) SaveOk
           (upload_request "b.txt" [Byte.x02] "Folk song") one_row 2).
  - vm_compute. reflexivity.
  - reflexivity.
Defined.

Lemma items_after_delete permitted item_id w r :
  In r (items (world_after (DeleteItem permitted item_id) w)) ->
  In r (items w) /\ Row.id r <> item_id.
Proof.
  destruct (List.find (fun r => Row.id r =? item_id) (items w)) as [row|] eqn:Hfind.
  - destruct (delete_item_found permitted item_id w row Hfind) as (_ & -> & _).
    rewrite filter_In, negb_true_iff, Nat.eqb_neq. trivial.
  - unfold world_after, serve, handler.
    rewrite (delete_item_missing permitted item_id w Hfind). simpl.
    intros Hr. split; [exact Hr|].
    intros Hid. apply (find_none _ _ Hfind) in Hr. simpl in Hr.
    rewrite Hid, Nat.eqb_refl in Hr. discriminate.
Qed.

(** X25: after the delete of an id, no listing, searched or not, shows a
    row with that id. *)
Theorem delete_then_list permitted item_id w (req : request) (rows : list Row.t) :
  response_of (ListItems req) (world_after (DeleteItem permitted item_id) w)
  = {| status := 200; payload := JItems rows |} ->
  forall r, In r rows -> Row.id r <> item_id.
Proof.
  intros Hlist r Hr.
  apply (list_items_rows req _ rows Hlist) in Hr.
  now apply items_after_delete in Hr.
Qed.

Lemma delete_then_list_witness :
  Row.id (row_of (noon 7) (noon 8) (upload_request "b.txt" [Byte.x02] "Folk song")
            (file_part "b.txt" [Byte.x02]) 2) <> 1.
Proof.
  apply (delete_then_list true 1 two_rows {| files := ∅; form := ∅; args := ∅ |}
           [row_of (noon 7) (noon 8) (upload_request "b.txt" [Byte.x02] "Folk song")
              (file_part "b.txt" [Byte.x02]) 2]).
  - vm_compute. reflexivity.
  - now left.
Defined.

(** ** The title shown on the page *)

Lemma reachable_row_shape (cs : list call) :
  forall r, In r (items (world_after_all cs empty_world)) -> row_shape r.
Proof.
  assert (H : forall w0, (forall r, In r (items w0) -> row_shape r) ->
              forall r, In r (items (world_after_all cs w0)) -> row_shape r).
  { induction cs as [|c cs IH]; intros w0 Hw0; simpl; [exact Hw0|].
    apply IH, row_shape_step, Hw0. }
  apply H. intros r [].
Qed.

Lemma escape_char_not_empty (c : ascii) : escape_char c <> [].
Proof.
  destruct (escape_char_cases c) as [[_ E] | [[_ E] | [[_ E] | [_ E]]]];
    rewrite E; discriminate.
Qed.

(** X26: whatever requests are served from the empty archive, the title
    that the page shows for a row is its escaped title, or its escaped
    original name when the title is empty; it is never empty and the
    'Untitled' of the script is never reached. *)
Theorem shown_title_of_rows (cs : list call) (r : Row.t) :
  In r (items (world_after_all cs empty_world)) ->
  shown_title r = escapeHtml (Some (js_or (Row.title r) (Row.original_name r)))
  /\ shown_title r <> [].
Proof.
  intros Hr. destruct (reachable_row_shape cs r Hr) as (Hne & _).
  assert (Hor : js_or (Row.title r) (Row.original_name r) <> []).
  { destruct (Row.title r); [exact Hne | discriminate]. }
  assert (E : shown_title r = escapeHtml (Some (js_or (Row.title r) (Row.original_name r)))).
  { unfold shown_title.
    destruct (js_or (Row.title r) (Row.original_name r)); [congruence | reflexivity]. }
  split; [exact E|]. rewrite E, escapeHtml_flat_map, or_empty_default. simpl.
  destruct (js_or (Row.title r) (Row.original_name r)) as [|c s]; [congruence|].
  simpl. intros H. apply app_eq_nil in H as [H _]. now apply escape_char_not_empty in H.
Qed.

Lemma shown_title_of_rows_witness :
  shown_title first_row = lit "Palm leaf 1".
Proof.
  destruct (shown_title_of_rows
              [Upload (noon 1) (noon 2) SaveOk
                 (upload_request "scan1.jpg" [Byte.x01] "Palm leaf 1")]
              first_row) as [E _].
  - vm_compute. left. reflexivity.
  - rewrite E. vm_compute. reflexivity.
Defined.

(** ** Searching for an upload *)

Lemma list_items_plain_query (req : request) (w : world) :
  let q := strip (or_empty (args req !! "q"%string)) in
  q <> [] -> no_wildcard q = true ->
  exists rows,
    response_of (ListItems req) w = {| status := 200; payload := JItems rows |}
    /\ rows ≡ₚ List.filter (row_matches q) (items w).
Proof.
  intros q Hne Hq.
  destruct q as [|c q'] eqn:Eq; [congruence|].
  destruct (list_items_where req w (lower_char c) (lower q')) as (rows & Hr & Hperm).
  { fold q. now rewrite Eq. }
  exists rows. split; [exact Hr|]. rewrite Hperm.
  apply Permutation_refl'. apply filter_ext. intros r.
  now apply (search_where_matches (c :: q')).
Qed.

(** X27: an upload can be found by its title.  After a successful upload,
    a search for a text without wildcard that the stored title contains,
    whatever the case of the letters, lists the new row. *)
Theorem upload_then_search now1 now2 io req w item_id (req' : request) :
  response_of (Upload now1 now2 io req) w
  = {| status := 201; payload := JCreated item_id |} ->
  let q := strip (or_empty (args req' !! "q"%string)) in
  q <> [] -> no_wildcard q = true ->
  contains_ci q (strip (or_empty (form req !! "title"%string))) = true ->
  let w' := world_after (Upload now1 now2 io req) w in
  exists row rows,
    response_of (GetItem item_id) w' = {| status := 200; payload := JItem row |}
    /\ response_of (ListItems req') w' = {| status := 200; payload := JItems rows |}
    /\ In row rows.
Proof.
  intros H q Hne Hq Hin w'.
  destruct (upload_201_rowid now1 now2 io req w item_id H) as (-> & -> & f & Ha).
  destruct (list_items_plain_query req' w' Hne Hq) as (rows & Hlist & Hperm).
  exists (row_of now1 now2 req f (next_rowid w)), rows.
  split; [apply upload_then_get_item; [apply Ha | exact H]|].
  split; [exact Hlist|].
  apply list_elem_of_In. rewrite Hperm. apply list_elem_of_In, filter_In. split.
  - subst w'. unfold world_after, serve, handler.
    rewrite (upload_accepted_ok now1 now2 req f w Ha). simpl.
    apply in_or_app. right. now left.
  - unfold row_matches. cbn [row_of Row.title]. fold q. now rewrite Hin.
Qed.

Lemma upload_then_search_witness :
  let c := Upload (noon 1) (noon 2) SaveOk
             (upload_request "scan1.jpg" [Byte.x01] "Ramayana palm-leaf page") in
  exists row rows,
    response_of (GetItem 1) (world_after c empty_world)
    = {| status := 200; payload := JItem row |}
    /\ response_of (ListItems (query_request " RAMAYANA ")) (world_after c empty_world)
       = {| status := 200; payload := JItems rows |}
    /\ In row rows.
Proof.
  intros c.
  apply (upload_then_search (noon 1) (noon 2) SaveOk
           (upload_request "scan1.jpg" [Byte.x01] "Ramayana palm-leaf page")
           empty_world 1 (query_request " RAMAYANA ")).
  - vm_compute. reflexivity.
  - vm_compute. discriminate.
  - vm_compute. reflexivity.
  - vm_compute. reflexivity.
Defined.
